(** * logflux: syslog messages to InfluxDB points

    A shallow embedding of [logflux/main.py]: the message normalizer
    ([load_message_json], [load_message_legacy], [load_message]), the matcher
    ([check_re]), the value resolver ([rule_value_match_lookup],
    [rule_value_lookup], [get_fields_tags]), the point builder ([make_point],
    [parse_message]) and the listener's per-datagram handler ([send_points],
    [handle]).

    Python values are an inductive type, a [str] is the list of its code
    points, a [dict] is an association list in insertion order, exceptions are
    a result type, and the mutable attributes of [LogFluxApplication] together
    with the error stream and the calls made to the InfluxDB client are a
    record threaded through a state-and-exception monad.  What lives outside
    [main.py] (the [re] and [json] modules, [float], [repr], the InfluxDB
    client) is a field of the class [Runtime]. *)

From Stdlib Require Import List ZArith NArith Bool Lia.
From Stdlib Require Import Ascii String DecimalString SpecFloat.
From Stdlib.Strings Require Import Byte.
Import ListNotations.

Set Implicit Arguments.
Set Warnings "-register-all".
Local Open Scope N_scope.

(** ** Python strings *)

(** A [str] is a sequence of Unicode code points. *)
Definition pystr := list N.

(** The [str] of an ASCII literal of the source. *)
Definition u (s : string) : pystr := map N_of_ascii (list_ascii_of_string s).

Fixpoint str_eqb (a b : pystr) : bool :=
  match a, b with
  | [], [] => true
  | x :: a', y :: b' => (x =? y) && str_eqb a' b'
  | _, _ => false
  end.

(** [str.isspace] on one code point. *)
Definition isspace (c : N) : bool :=
  ((9 <=? c) && (c <=? 13)) || ((28 <=? c) && (c <=? 32)) ||
  (c =? 133) || (c =? 160) || (c =? 5760) ||
  ((8192 <=? c) && (c <=? 8202)) || (c =? 8232) || (c =? 8233) ||
  (c =? 8239) || (c =? 8287) || (c =? 12288).

(** The code points that are white space for Python. *)
Definition whitespace : list N :=
  [ 9; 10; 11; 12; 13; 28; 29; 30; 31; 32; 133; 160; 5760;
    8192; 8193; 8194; 8195; 8196; 8197; 8198; 8199; 8200; 8201; 8202;
    8232; 8233; 8239; 8287; 12288 ].

Fixpoint lstrip_by (space : N -> bool) (s : pystr) : pystr :=
  match s with
  | c :: s' => if space c then lstrip_by space s' else s
  | [] => []
  end.

Definition strip_by (space : N -> bool) (s : pystr) : pystr :=
  rev (lstrip_by space (rev (lstrip_by space s))).

(** [s.strip()] *)
Definition strip (s : pystr) : pystr := strip_by isspace s.

(** The line boundaries of [str.splitlines], [\r\n] apart. *)
Definition is_linebreak (c : N) : bool :=
  ((10 <=? c) && (c <=? 13)) || ((28 <=? c) && (c <=? 30)) ||
  (c =? 133) || (c =? 8232) || (c =? 8233).

Fixpoint splitlines_from (cur : pystr) (s : pystr) : list pystr :=
  match s with
  | [] => match cur with [] => [] | _ => [rev cur] end
  | c :: rest =>
      if is_linebreak c then
        match rest with
        | d :: rest' =>
            if (c =? 13) && (d =? 10)
            then rev cur :: splitlines_from [] rest'
            else rev cur :: splitlines_from [] rest
        | [] => [rev cur]
        end
      else splitlines_from (c :: cur) rest
  end.

(** [s.splitlines()] *)
Definition splitlines (s : pystr) : list pystr := splitlines_from [] s.

(** [s] without the prefix [p], when it starts with it. *)
Fixpoint strip_prefix (p s : pystr) : option pystr :=
  match p, s with
  | [], _ => Some s
  | x :: p', y :: s' => if x =? y then strip_prefix p' s' else None
  | _ :: _, [] => None
  end.

(** [s.split(sep, 1)] for a non-empty [sep]: the text before and after the
    first occurrence of [sep], or [None] when the result is the one-element
    list [[s]]. *)
Fixpoint split_once (sep s : pystr) : option (pystr * pystr) :=
  match strip_prefix sep s with
  | Some rest => Some ([], rest)
  | None =>
      match s with
      | [] => None
      | c :: s' =>
          match split_once sep s' with
          | Some (a, b) => Some (c :: a, b)
          | None => None
          end
      end
  end.

(** [sep.join(parts)] *)
Fixpoint join (sep : pystr) (parts : list pystr) : pystr :=
  match parts with
  | [] => []
  | [p] => p
  | p :: ps => p ++ sep ++ join sep ps
  end.

(** [c in s] for a one-character [c]. *)
Definition contains (c : N) (s : pystr) : bool := existsb (N.eqb c) s.

(** [s.replace('"', '\\"')] *)
Definition escape_quotes (s : pystr) : pystr :=
  flat_map (fun c => if c =? 34 then [92; 34] else [c]) s.

(** [str(z)] for an [int]. *)
Definition str_of_Z (z : Z) : pystr := u (NilZero.string_of_int (Z.to_int z)).

(** ** Bytes *)

Definition bytes := list byte.

(** The [bytes] of an ASCII literal. *)
Definition bytes_of (s : string) : bytes := list_byte_of_string s.

Definition is_cont (x : N) : bool := (128 <=? x) && (x <=? 191).

(** [raw.decode('utf-8')]: strict UTF-8, [None] for [UnicodeDecodeError].
    [fuel] bounds the number of code points. *)
Fixpoint utf8_decode_from (fuel : nat) (bs : list N) : option pystr :=
  match fuel with
  | O => match bs with [] => Some [] | _ => None end
  | S fuel' =>
      match bs with
      | [] => Some []
      | x :: r1 =>
          if x <? 128 then option_map (cons x) (utf8_decode_from fuel' r1)
          else if (194 <=? x) && (x <=? 223) then
            match r1 with
            | y :: r2 =>
                if is_cont y
                then option_map (cons ((x - 192) * 64 + (y - 128)))
                       (utf8_decode_from fuel' r2)
                else None
            | _ => None
            end
          else if (224 <=? x) && (x <=? 239) then
            match r1 with
            | y :: z :: r3 =>
                if is_cont y && is_cont z &&
                   (if x =? 224 then 160 <=? y else true) &&
                   (if x =? 237 then y <=? 159 else true)
                then option_map
                       (cons ((x - 224) * 4096 + (y - 128) * 64 + (z - 128)))
                       (utf8_decode_from fuel' r3)
                else None
            | _ => None
            end
          else if (240 <=? x) && (x <=? 244) then
            match r1 with
            | y :: z :: w :: r4 =>
                if is_cont y && is_cont z && is_cont w &&
                   (if x =? 240 then 144 <=? y else true) &&
                   (if x =? 244 then y <=? 143 else true)
                then option_map
                       (cons ((x - 240) * 262144 + (y - 128) * 4096 +
                              (z - 128) * 64 + (w - 128)))
                       (utf8_decode_from fuel' r4)
                else None
            | _ => None
            end
          else None
      end
  end.

Definition utf8_decode (raw : bytes) : option pystr :=
  utf8_decode_from (List.length raw) (map Byte.to_N raw).

(** ** Values, exceptions, dictionaries *)

(** What [json.loads] can return, which is also what a message, a field and a
    tag can hold.  A [float] is an IEEE 754 binary64 number. *)
Inductive value : Type :=
| VNone
| VBool (t : bool)
| VInt (z : Z)
| VFloat (f : spec_float)
| VStr (s : pystr)
| VList (l : list value)
| VDict (d : list (pystr * value)).

(** A [dict] with [str] keys, in insertion order. *)
Definition dict := list (pystr * value).

(** The exceptions of the pipeline; each is a subclass of [Exception].
    [ValueError] stands for its subclasses [UnicodeDecodeError] and
    [json.JSONDecodeError] too.  [FormatError] is the failure of
    [str.format]: a [ValueError] for a single brace, an [IndexError] or a
    [KeyError] for a replacement field that has no argument. *)
Inductive exn : Type :=
| KeyError (key : pystr)
| ValueError
| TypeError
| AttributeError
| AssertionError (msg : pystr)
| OverflowError
| FormatError
| OtherError (name : pystr).

Inductive Result (A : Type) : Type :=
| Ok (a : A)
| Raise (e : exn).
Arguments Raise {A} e.

Definition is_KeyError (e : exn) : bool :=
  match e with KeyError _ => true | _ => false end.

Definition is_ValueError (e : exn) : bool :=
  match e with ValueError => true | _ => false end.

(** [except Exception] *)
Definition is_Exception (e : exn) : bool := true.

Fixpoint dict_get (d : dict) (k : pystr) : option value :=
  match d with
  | [] => None
  | (k', v) :: d' => if str_eqb k' k then Some v else dict_get d' k
  end.

(** [d[k] = v]: a key that is there keeps its place. *)
Fixpoint dict_set (d : dict) (k : pystr) (v : value) : dict :=
  match d with
  | [] => [(k, v)]
  | (k', v') :: d' =>
      if str_eqb k' k then (k', v) :: d' else (k', v') :: dict_set d' k v
  end.

Definition is_zero (f : spec_float) : bool :=
  match f with S754_zero _ => true | _ => false end.

Definition is_nil (A : Type) (l : list A) : bool :=
  match l with [] => true | _ => false end.

(** [bool(v)] *)
Definition truthy (v : value) : bool :=
  match v with
  | VNone => false
  | VBool t => t
  | VInt z => negb (z =? 0)%Z
  | VFloat f => negb (is_zero f)
  | VStr s => negb (is_nil s)
  | VList l => negb (is_nil l)
  | VDict d => negb (is_nil d)
  end.

(** [v[k]] for a [str] key [k]. *)
Definition subscript (v : value) (k : pystr) : Result value :=
  match v with
  | VDict d =>
      match dict_get d k with
      | Some x => Ok x
      | None => Raise (KeyError k)
      end
  | _ => Raise TypeError
  end.

(** [v.strip()] *)
Definition value_strip (v : value) : Result pystr :=
  match v with
  | VStr s => Ok (strip s)
  | _ => Raise AttributeError
  end.

(** ** The collaborators of [main.py] *)

(** A match object: only [groupdict()] is used, and a match object is always
    truthy. *)
Record Match : Type := { groupdict : dict }.

(** [InfluxDB] points, as [make_point] builds them; the key ['tags'] is
    there or not. *)
Record point : Type := {
  measurement : pystr;
  time : value;
  pfields : dict;
  ptags : option dict
}.

Class Runtime : Type := {
  (** [re.match(re.compile(pattern), s)], [None] when there is no match *)
  re_match : pystr -> pystr -> option Match;
  (** [json.loads(s)] *)
  json_loads : pystr -> Result value;
  (** [float(s)] for a [str], [None] for [ValueError] *)
  float_of_str : pystr -> option spec_float;
  (** the decimal digit value of a code point above ASCII, if it has one *)
  todecimal : N -> option Z;
  (** [str(f)] for a [float] *)
  float_str : spec_float -> pystr;
  (** [str(v)] for a [list] or a [dict] *)
  container_str : value -> pystr;
  (** [str(e)] for an exception raised by the interpreter *)
  exc_str : exn -> pystr;
  (** [str(raw)] for [bytes] *)
  bytes_str : bytes -> pystr;
  (** [client.write_points(batch)], given the batches of the calls made
      before: [Some e] when the call raises [e] *)
  write_points : list (list point) -> list point -> option exn
}.

(** ** [int] and [float] *)

Section Coercions.
Context {rt : Runtime}.

(** The white space [int] skips around a literal: [isspace] without the
    ASCII separators 0x1c to 0x1f. *)
Definition int_space (c : N) : bool :=
  isspace c && negb ((28 <=? c) && (c <=? 31)).

Definition digit_of (c : N) : option Z :=
  if (48 <=? c) && (c <=? 57) then Some (Z.of_N (c - 48))
  else if c <? 128 then None
  else todecimal c.

(** Digits, with single underscores between them. *)
Fixpoint int_digits (acc : Z) (after_digit : bool) (s : pystr) : option Z :=
  match s with
  | [] => if after_digit then Some acc else None
  | c :: s' =>
      if c =? 95 then
        if after_digit then int_digits acc false s' else None
      else
        match digit_of c with
        | Some d => int_digits (acc * 10 + d)%Z true s'
        | None => None
        end
  end.

(** [sys.int_max_str_digits], at its default: [int] refuses a text with
    more digits, the sign, the underscores and the white space around it
    not counted. *)
Definition int_max_str_digits : N := 4300.

Definition digit_count (s : pystr) : N :=
  N.of_nat (List.length (filter (fun c => negb (c =? 95)) s)).

(** The digits of a literal without its sign, within the limit. *)
Definition int_of_digits (s : pystr) : option Z :=
  match int_digits 0 false s with
  | Some z => if int_max_str_digits <? digit_count s then None else Some z
  | None => None
  end.

(** [int(s)] for a [str], [None] for [ValueError]. *)
Definition int_of_str (s : pystr) : option Z :=
  match strip_by int_space s with
  | 43 :: s' => int_of_digits s'
  | 45 :: s' => option_map Z.opp (int_of_digits s')
  | s' => int_of_digits s'
  end.

(** [int(v)] *)
Definition py_int (v : value) : Result value :=
  match v with
  | VStr s =>
      match int_of_str s with
      | Some z => Ok (VInt z)
      | None => Raise ValueError
      end
  | VInt z => Ok (VInt z)
  | VBool t => Ok (VInt (if t then 1 else 0))
  | VFloat (S754_zero _) => Ok (VInt 0)
  | VFloat (S754_finite s m e) =>
      let a := match e with
               | Z0 => Zpos m
               | Zpos p => Z.shiftl (Zpos m) (Zpos p)
               | Zneg p => Z.shiftr (Zpos m) (Zpos p)
               end in
      Ok (VInt (if s then Z.opp a else a))
  | VFloat (S754_infinity _) => Raise OverflowError
  | VFloat S754_nan => Raise ValueError
  | _ => Raise TypeError
  end.

(** [float(z)] for an [int]: rounded to the nearest binary64, ties to
    even. *)
Definition float_of_Z (z : Z) : spec_float :=
  binary_normalize 53 1024 z 0 false.

(** [float(v)] *)
Definition py_float (v : value) : Result value :=
  match v with
  | VStr s =>
      match float_of_str s with
      | Some f => Ok (VFloat f)
      | None => Raise ValueError
      end
  | VInt z =>
      match float_of_Z z with
      | S754_infinity _ => Raise OverflowError
      | f => Ok (VFloat f)
      end
  | VBool t => Ok (VFloat (float_of_Z (if t then 1 else 0)))
  | VFloat f => Ok (VFloat f)
  | _ => Raise TypeError
  end.

(** [TYPE_MAP] *)
Definition TYPE_MAP : list (pystr * (value -> Result value)) :=
  [ (u "int", py_int); (u "float", py_float) ].

Fixpoint assoc (A : Type) (l : list (pystr * A)) (k : pystr) : option A :=
  match l with
  | [] => None
  | (k', a) :: l' => if str_eqb k' k then Some a else assoc l' k
  end.

(** [str(v)] *)
Definition py_str (v : value) : pystr :=
  match v with
  | VNone => u "None"
  | VBool t => if t then u "True" else u "False"
  | VInt z => str_of_Z z
  | VFloat f => float_str f
  | VStr s => s
  | VList _ | VDict _ => container_str v
  end.

(** [str(e)] *)
Definition str_exc (e : exn) : pystr :=
  match e with
  | AssertionError msg => msg
  | _ => exc_str e
  end.

End Coercions.

(** ** [str.format] *)

(** [fmt.format( *args )] for the format strings of the program, whose only
    replacement field is [{}]; [{{] and [}}] are the escapes of a brace.
    Every other replacement field is an error here: the program calls
    [format] on such a string only without arguments, where Python raises
    too. *)
Fixpoint py_format (fmt : pystr) (args : list pystr) : Result pystr :=
  match fmt with
  | [] => Ok []
  | c :: rest =>
      if c =? 123 then
        match rest with
        | d :: rest' =>
            if d =? 123 then
              match py_format rest' args with
              | Ok s => Ok (123 :: s)
              | Raise e => Raise e
              end
            else if d =? 125 then
              match args with
              | a :: args' =>
                  match py_format rest' args' with
                  | Ok s => Ok (a ++ s)
                  | Raise e => Raise e
                  end
              | [] => Raise FormatError
              end
            else Raise FormatError
        | [] => Raise FormatError
        end
      else if c =? 125 then
        match rest with
        | d :: rest' =>
            if d =? 125 then
              match py_format rest' args with
              | Ok s => Ok (125 :: s)
              | Raise e => Raise e
              end
            else Raise FormatError
        | [] => Raise FormatError
        end
      else
        match py_format rest args with
        | Ok s => Ok (c :: s)
        | Raise e => Raise e
        end
  end.

(** ** Rules and the application state *)

(** A field or tag lookup of the configuration: a [str], or a [dict] with
    the key ['lookup'] and perhaps the key ['type']. *)
Inductive lookup : Type :=
| LStr (ref : pystr)
| LDict (type : option pystr) (ref : pystr).

(** A rule of the configuration, after [compile_rules]: [match_key] is
    [rule['match']['key']] and [match_regex] the pattern of
    [rule['match']['regex']]; ['fields'] and ['tags'] may be missing. *)
Record rule : Type := {
  name : pystr;
  match_key : pystr;
  match_regex : pystr;
  fields : option (list (pystr * lookup));
  tags : option (list (pystr * lookup))
}.

Inductive lookup_type : Type := Fields | Tags.

(** [rule.get(lookup_type)] *)
Definition rule_get (lt : lookup_type) (r : rule) :
  option (list (pystr * lookup)) :=
  match lt with Fields => fields r | Tags => tags r end.

(** The two values [message_loader] takes besides [None]. *)
Inductive loader : Type := LoaderJson | LoaderLegacy.

(** What is printed on the error stream: a line, or the traceback of an
    exception. *)
Inductive out : Type :=
| Line (s : pystr)
| Traceback (e : exn).

(** [LogFluxApplication]: [rules] and [debug] ([args.debug]) are set by
    [setup] and read afterwards; [stderr] is what was printed so far and
    [client_calls] the batches [client.write_points] was called with. *)
Record app : Type := {
  rules : list rule;
  debug : bool;
  message_id : Z;
  message_loader : option loader;
  stderr : list out;
  client_calls : list (list point)
}.

Definition print (o : out) (st : app) : app :=
  {| rules := rules st; debug := debug st; message_id := message_id st;
     message_loader := message_loader st; stderr := stderr st ++ [o];
     client_calls := client_calls st |}.

Definition with_loader (l : loader) (st : app) : app :=
  {| rules := rules st; debug := debug st; message_id := message_id st;
     message_loader := Some l; stderr := stderr st;
     client_calls := client_calls st |}.

Definition with_message_id (n : Z) (st : app) : app :=
  {| rules := rules st; debug := debug st; message_id := n;
     message_loader := message_loader st; stderr := stderr st;
     client_calls := client_calls st |}.

Definition with_call (batch : list point) (st : app) : app :=
  {| rules := rules st; debug := debug st; message_id := message_id st;
     message_loader := message_loader st; stderr := stderr st;
     client_calls := client_calls st ++ [batch] |}.

(** ** State and exceptions *)

(** A method of the application: it returns or raises, and leaves a
    state. *)
Definition M (A : Type) : Type := app -> Result A * app.

Definition ret (A : Type) (a : A) : M A := fun st => (Ok a, st).

Definition raise (A : Type) (e : exn) : M A := fun st => (Raise e, st).
Arguments raise {A} e.

Definition lift (A : Type) (r : Result A) : M A := fun st => (r, st).

Definition bind (A B : Type) (m : M A) (k : A -> M B) : M B :=
  fun st =>
    match m st with
    | (Ok a, st') => k a st'
    | (Raise e, st') => (Raise e, st')
    end.

(** [try: m except C as e: h e], where [catches] tells the instances of
    [C]. *)
Definition try_except (A : Type) (m : M A) (catches : exn -> bool)
  (h : exn -> M A) : M A :=
  fun st =>
    match m st with
    | (Ok a, st') => (Ok a, st')
    | (Raise e, st') => if catches e then h e st' else (Raise e, st')
    end.

Definition modify (f : app -> app) : M unit := fun st => (Ok tt, f st).

Notation "x <- m ;; k" := (bind m (fun x => k))
  (at level 61, m at next level, right associativity).
Notation "m ;; k" := (bind m (fun _ => k))
  (at level 61, right associativity).

(** ** The program *)

Section Application.
Context {rt : Runtime}.

(** The module's [log(msg, *args, exception=...)]: [exception] is the
    exception being handled when the call says [exception=True]. *)
Definition log (msg : pystr) (args : list pystr) (exception : option exn) :
  M unit :=
  fun st =>
    let st1 := match exception with
               | Some e => print (Traceback e) st
               | None => st
               end in
    match py_format msg args with
    | Ok s => (Ok tt, print (Line s) st1)
    | Raise e => (Raise e, st1)
    end.

(** [LogFluxApplication.log], with the sequential [Server], whose [log] is
    the module's. *)
Definition app_log (msg : pystr) (args : list pystr)
  (exception : option exn) : M unit :=
  fun st =>
    match py_format (u "[msg {}]: {}") [str_of_Z (message_id st); msg] with
    | Ok m => log m args exception st
    | Raise e => (Raise e, st)
    end.

(** [LogFluxApplication.debug] *)
Definition app_debug (msg : pystr) (args : list pystr) : M unit :=
  fun st => if debug st then app_log msg args None st else (Ok tt, st).

(** [load_message_json] *)
Definition load_message_json (raw : bytes) : Result value :=
  match utf8_decode raw with
  | Some s => json_loads (strip s)
  | None => Raise ValueError
  end.

(** The first loop of [load_message_legacy]: the header lines up to the
    first empty line, and the lines left in the iterator. *)
Fixpoint legacy_headers (r : dict) (lines : list pystr) :
  Result (dict * list pystr) :=
  match lines with
  | [] => Ok (r, [])
  | line :: rest =>
      if is_nil line then Ok (r, rest)
      else
        match split_once (u ": ") line with
        | Some (k, v) => legacy_headers (dict_set r k (VStr v)) rest
        | None => Raise ValueError
        end
  end.

(** [load_message_legacy] *)
Definition load_message_legacy (raw : bytes) : Result value :=
  match utf8_decode raw with
  | Some s =>
      match legacy_headers [] (splitlines s) with
      | Ok (r, rest) =>
          Ok (VDict (dict_set r (u "message") (VStr (join (u "
") rest))))
      | Raise e => Raise e
      end
  | None => Raise ValueError
  end.

Definition run_loader (l : loader) (raw : bytes) : Result value :=
  match l with
  | LoaderJson => load_message_json raw
  | LoaderLegacy => load_message_legacy raw
  end.

(** [self.message_loader(raw)] *)
Definition call_message_loader (raw : bytes) : M value :=
  fun st =>
    match message_loader st with
    | Some l => (run_loader l raw, st)
    | None => (Raise TypeError, st)
    end.

(** [load_message] *)
Definition load_message (raw : bytes) : M value :=
  fun st =>
    ((match message_loader st with
      | Some _ => ret tt
      | None =>
          try_except
            (_ <- lift (load_message_json raw) ;;
             modify (with_loader LoaderJson) ;;
             log (u "first message appears to be JSON format, setting loader to JSON")
               [] None)
            is_ValueError
            (fun _ =>
               log (u "first message does not appear to be JSON format, setting loader to legacy")
                 [] None ;;
               modify (with_loader LoaderLegacy))
      end) ;;
     call_message_loader raw) st.

(** [check_re]: [None] is also what the [except] branch returns. *)
Definition check_re (msg : value) (key pattern : pystr) : M (option Match) :=
  try_except
    (v <- lift (subscript msg key) ;;
     s <- lift (value_strip v) ;;
     ret (re_match pattern s))
    is_KeyError
    (fun _ =>
       app_log (u "expected key '{}' not in message") [key] None ;;
       ret None).

(** [rule_value_match_lookup]: [raise NotImplemented(...)] calls the constant
    [NotImplemented], which is a [TypeError]. *)
Definition rule_value_match_lookup (r : rule) (m : Match) (ref : pystr) :
  Result value :=
  match split_once [46] ref with
  | Some (key, matchkey) =>
      if negb (str_eqb key (match_key r)) then Raise TypeError
      else subscript (VDict (groupdict m)) matchkey
  | None => Raise ValueError
  end.

Fixpoint log_groups (groups : dict) : M unit :=
  match groups with
  | [] => ret tt
  | (k, v) :: rest =>
      app_log (u "  {}: {}") [k; py_str v] None ;; log_groups rest
  end.

(** [rule_value_lookup] *)
Definition rule_value_lookup (r : rule) (msg : value) (m : Match)
  (l : lookup) : M value :=
  tr <- match l with
        | LDict (Some ty) ref =>
            match assoc TYPE_MAP ty with
            | Some f => ret (Some f, ref)
            | None => raise (KeyError ty)
            end
        | LDict None ref => ret (None, ref)
        | LStr ref => ret (None, ref)
        end ;;
  let valtypef := fst tr in
  let ref := snd tr in
  v <- try_except
         (lift (if contains 46 ref
                then rule_value_match_lookup r m ref
                else subscript msg ref))
         is_KeyError
         (fun _ =>
            app_log (u "error: invalid field/tag reference: {}; matches were:")
              [ref] None ;;
            log_groups (groupdict m) ;;
            ret VNone) ;;
  match valtypef with
  | Some f => if truthy v then lift (f v) else ret v
  | None => ret v
  end.

(** The loop of [get_fields_tags], from the dictionary [r] built so far. *)
Fixpoint get_fields_tags_loop (rl : rule) (msg : value) (m : Match)
  (items : list (pystr * lookup)) (r : dict) : M dict :=
  match items with
  | [] => ret r
  | (k, l) :: rest =>
      v <- rule_value_lookup rl msg m l ;;
      get_fields_tags_loop rl msg m rest
        (if truthy v then dict_set r k v else r)
  end.

(** [get_fields_tags] *)
Definition get_fields_tags (lt : lookup_type) (rl : rule) (msg : value)
  (m : Match) (default : option (list (pystr * lookup))) : M dict :=
  let items := match rule_get lt rl with
               | Some d => d
               | None => match default with Some d => d | None => [] end
               end in
  get_fields_tags_loop rl msg m items [].

(** [make_point] *)
Definition make_point (rl : rule) (msg : value) (m : Match) : M point :=
  t <- lift (subscript msg (u "@timestamp")) ;;
  fs <- get_fields_tags Fields rl msg m
          (Some [(u "value", LStr (u "message"))]) ;;
  if is_nil fs
  then raise (AssertionError (u "Unable to populate field values"))
  else
    ts <- get_fields_tags Tags rl msg m None ;;
    ret {| measurement := name rl; time := t; pfields := fs;
           ptags := if is_nil ts then None else Some ts |}.

(** The loop of [parse_message], from the [points] collected so far. *)
Fixpoint parse_message_loop (rs : list rule) (msg : value)
  (points : list point) : M (list point) :=
  match rs with
  | [] => ret points
  | rl :: rs' =>
      m <- check_re msg (match_key rl) (match_regex rl) ;;
      points' <- match m with
                 | Some m =>
                     try_except
                       (p <- make_point rl msg m ;; ret (points ++ [p]))
                       is_Exception
                       (fun exc =>
                          app_log (u "Failed to generate point: {}")
                            [str_exc exc] None ;;
                          ret points)
                 | None => ret points
                 end ;;
      parse_message_loop rs' msg points'
  end.

(** [parse_message] *)
Definition parse_message (msg : value) : M (list point) :=
  fun st => parse_message_loop (rules st) msg [] st.

(** [influxarg]: a [bool] is an [int] for [isinstance]. *)
Definition influxarg (v : value) : pystr :=
  match v with
  | VFloat _ => py_str v
  | VInt _ | VBool _ => py_str v ++ u "i"
  | _ => [34] ++ escape_quotes (py_str v) ++ [34]
  end.

(** [fmtarg] *)
Definition fmtarg (d : dict) : pystr :=
  join (u ",") (map (fun kv => fst kv ++ u "=" ++ influxarg (snd kv)) d).

(** The line [send_points] makes of a point. *)
Definition point_line (p : point) : pystr :=
  let ts := match ptags p with
            | Some t => if is_nil t then [] else u "," ++ fmtarg t
            | None => []
            end in
  measurement p ++ ts ++ u " " ++ fmtarg (pfields p) ++ u " " ++
  py_str (time p).

(** The loop of [send_points]: the line is the format string of
    [self.log], which formats it once more, without arguments. *)
Fixpoint log_points (points : list point) : M unit :=
  match points with
  | [] => ret tt
  | p :: rest => app_log (point_line p) [] None ;; log_points rest
  end.

(** [self.client.write_points(points)] *)
Definition client_write_points (points : list point) : M unit :=
  fun st =>
    match write_points (client_calls st) points with
    | Some e => (Raise e, with_call points st)
    | None => (Ok tt, with_call points st)
    end.

(** [send_points] *)
Definition send_points (points : list point) : M unit :=
  log_points points ;;
  if is_nil points then ret tt else client_write_points points.

(** What [handle] tries. *)
Definition handle_body (raw : bytes) : M unit :=
  msg <- load_message raw ;;
  if negb (truthy msg) then ret tt
  else
    points <- parse_message msg ;;
    send_points points.

(** [handle], for the datagram [raw] ([handler.request[0]]). *)
Definition handle (raw : bytes) : M unit :=
  modify (fun st => with_message_id (message_id st + 1)%Z st) ;;
  app_debug (u "received message: {}") [bytes_str raw] ;;
  try_except (handle_body raw) is_Exception
    (fun e => app_log (u "Caught exception handling message") [] (Some e)).

(** [serve_forever] of the sequential [Server] on the datagrams that
    arrive: one [handle] for each, in order.  An exception that left
    [handle] would end the loop. *)
Fixpoint serve_forever (datagrams : list bytes) : M unit :=
  match datagrams with
  | [] => ret tt
  | raw :: rest => handle raw ;; serve_forever rest
  end.

End Application.

(** ** Two runtimes to run the program on *)

(** [re.match] for a pattern that is a literal text, with [^] in front or
    not and [$] at the end or not; it has no groups. *)
Definition literal_re_match (pattern s : pystr) : option Match :=
  let p1 := match pattern with 94 :: p => p | p => p end in
  let anchored := match rev p1 with 36 :: _ => true | _ => false end in
  let lit := if anchored then removelast p1 else p1 in
  match strip_prefix lit s with
  | Some rest =>
      if negb anchored || is_nil rest then Some {| groupdict := [] |}
      else None
  | None => None
  end.

(** A literal written with an apostrophe for each double quote. *)
Definition requote (s : pystr) : pystr :=
  map (fun c => if c =? 39 then 34 else c) s.

Definition bytes_requote (raw : bytes) : bytes :=
  map (fun x => if Byte.eqb x x27 then x22 else x) raw.

(** [json.loads] on the documents used below. *)
Definition table_json_loads (s : pystr) : Result value :=
  match
    assoc
      [ (u "{}", VDict []);
        (u "null", VNone);
        (requote
           (u "{'@timestamp':'2024-01-01T00:00:00Z','level':'warn','latency_ms':'120'}"),
         VDict [ (u "@timestamp", VStr (u "2024-01-01T00:00:00Z"));
                 (u "level", VStr (u "warn"));
                 (u "latency_ms", VStr (u "120")) ]) ]
      s
  with
  | Some v => Ok v
  | None => Raise ValueError
  end.

Definition demo_exc_str (e : exn) : pystr :=
  match e with
  | KeyError k => [39] ++ k ++ [39]
  | TypeError => u "'NotImplementedType' object is not callable"
  | OtherError n => n
  | _ => []
  end.

Definition demo_runtime : Runtime := {|
  re_match := literal_re_match;
  json_loads := table_json_loads;
  float_of_str := fun _ => None;
  todecimal := fun _ => None;
  float_str := fun _ => u "0.0";
  container_str := fun v => match v with VList _ => u "[]" | _ => u "{}" end;
  exc_str := demo_exc_str;
  bytes_str := fun raw => u "b'" ++ map Byte.to_N raw ++ u "'";
  write_points := fun _ _ => None
|}.

(** The same, with a client whose first [write_points] raises. *)
Definition flaky_runtime : Runtime := {|
  re_match := literal_re_match;
  json_loads := table_json_loads;
  float_of_str := fun _ => None;
  todecimal := fun _ => None;
  float_str := fun _ => u "0.0";
  container_str := fun v => match v with VList _ => u "[]" | _ => u "{}" end;
  exc_str := demo_exc_str;
  bytes_str := fun raw => u "b'" ++ map Byte.to_N raw ++ u "'";
  write_points := fun calls _ =>
    if is_nil calls then Some (OtherError (u "ConnectionError")) else None
|}.

(** A fresh application with the given rules, before any message. *)
Definition fresh (rs : list rule) (l : option loader) : app :=
  {| rules := rs; debug := false; message_id := 0; message_loader := l;
     stderr := []; client_calls := [] |}.

(** * Results, frames and scenario data *)

(** The vocabulary of the properties: what each method returns or raises as a
    function of its arguments alone, the lines it prints, how a state comes
    from another, and the data of the scenarios. *)

Section Vocabulary.
Context {rt : Runtime}.

(** No brace in [s]. *)
Definition brace_free (s : pystr) : bool :=
  forallb (fun c => negb (c =? 123) && negb (c =? 125)) s.

(** The text [LogFluxApplication.log] puts before a message. *)
Definition msg_prefix (st : app) : pystr :=
  u "[msg " ++ str_of_Z (message_id st) ++ u "]: ".

(** The line [check_re] prints for a key that is not in the message. *)
Definition missing_key_line (key : pystr) (st : app) : out :=
  Line (msg_prefix st ++ u "expected key '" ++ key ++ u "' not in message").

(** [st'] is [st] after some printing on the error stream. *)
Definition printed (st st' : app) : Prop :=
  exists o : list out,
    st' = {| rules := rules st; debug := debug st;
             message_id := message_id st;
             message_loader := message_loader st;
             stderr := stderr st ++ o; client_calls := client_calls st |}.

(** The reference and the coercion type of a lookup. *)
Definition lookup_ref (l : lookup) : pystr :=
  match l with LStr ref => ref | LDict _ ref => ref end.

Definition lookup_coercion (l : lookup) : option pystr :=
  match l with LStr _ => None | LDict ty _ => ty end.

(** What the [try] of [rule_value_lookup] evaluates. *)
Definition reference_value (rl : rule) (msg : value) (m : Match)
  (ref : pystr) : Result value :=
  if contains 46 ref then rule_value_match_lookup rl m ref
  else subscript msg ref.

(** The value [rule_value_lookup] returns or the exception it raises: the
    state only receives the lines it prints. *)
Definition resolved (rl : rule) (msg : value) (m : Match) (l : lookup) :
  Result value :=
  let r := match reference_value rl msg m (lookup_ref l) with
           | Ok v => Ok v
           | Raise e => if is_KeyError e then Ok VNone else Raise e
           end in
  match lookup_coercion l with
  | Some ty =>
      match assoc TYPE_MAP ty with
      | None => Raise (KeyError ty)
      | Some f =>
          match r with
          | Ok v => if truthy v then f v else Ok v
          | Raise e => Raise e
          end
      end
  | None => r
  end.

(** The dictionary the loop of [get_fields_tags] builds, or the exception
    that ends it. *)
Fixpoint collected (rl : rule) (msg : value) (m : Match)
  (items : list (pystr * lookup)) (r : dict) : Result dict :=
  match items with
  | [] => Ok r
  | (k, l) :: rest =>
      match resolved rl msg m l with
      | Ok v => collected rl msg m rest (if truthy v then dict_set r k v else r)
      | Raise e => Raise e
      end
  end.

(** The lookups [get_fields_tags] goes through. *)
Definition lookup_items (lt : lookup_type) (rl : rule)
  (default : option (list (pystr * lookup))) : list (pystr * lookup) :=
  match rule_get lt rl with
  | Some d => d
  | None => match default with Some d => d | None => [] end
  end.

(** The line [parse_message] prints for a point that could not be made. *)
Definition failed_point_line (e : exn) (st : app) : out :=
  Line (msg_prefix st ++ u "Failed to generate point: " ++ str_exc e).

(** The default of [make_point] for a rule without ['fields']. *)
Definition default_fields : list (pystr * lookup) :=
  [(u "value", LStr (u "message"))].

(** The point [make_point] returns or the exception it raises. *)
Definition built (rl : rule) (msg : value) (m : Match) : Result point :=
  match subscript msg (u "@timestamp") with
  | Raise e => Raise e
  | Ok t =>
      match collected rl msg m (lookup_items Fields rl (Some default_fields)) []
      with
      | Raise e => Raise e
      | Ok fs =>
          if is_nil fs
          then Raise (AssertionError (u "Unable to populate field values"))
          else
            match collected rl msg m (lookup_items Tags rl None) [] with
            | Raise e => Raise e
            | Ok ts =>
                Ok {| measurement := name rl; time := t; pfields := fs;
                      ptags := if is_nil ts then None else Some ts |}
            end
      end
  end.

(** What [check_re] returns or raises. *)
Definition checked (msg : value) (key pattern : pystr) :
  Result (option Match) :=
  match subscript msg key with
  | Ok v =>
      match value_strip v with
      | Ok s => Ok (re_match pattern s)
      | Raise e => Raise e
      end
  | Raise e => if is_KeyError e then Ok None else Raise e
  end.

(** The points [parse_message] returns or the exception it raises. *)
Fixpoint parsed (rs : list rule) (msg : value) (points : list point) :
  Result (list point) :=
  match rs with
  | [] => Ok points
  | rl :: rs' =>
      match checked msg (match_key rl) (match_regex rl) with
      | Raise e => Raise e
      | Ok None => parsed rs' msg points
      | Ok (Some m) =>
          match built rl msg m with
          | Ok p => parsed rs' msg (points ++ [p])
          | Raise _ => parsed rs' msg points
          end
      end
  end.

(** Every point has a field. *)
Definition has_fields (p : point) : Prop := is_nil (pfields p) = false.

(** A batch [send_points] may pass to the client: it is not empty and each
    of its points has a field. *)
Definition good_batch (batch : list point) : Prop :=
  is_nil batch = false /\ Forall has_fields batch.

(** [st'] comes from [st] by handling [n] datagrams: the rules and the
    debug flag are the same, the counter went up by [n], a loader that was
    set is still the same, the error stream only grew, and the client was
    only called with further good batches. *)
Definition evolves (n : Z) (st st' : app) : Prop :=
  rules st' = rules st /\ debug st' = debug st /\
  message_id st' = (message_id st + n)%Z /\
  (forall l, message_loader st = Some l -> message_loader st' = Some l) /\
  (exists o, stderr st' = stderr st ++ o) /\
  (exists bs, client_calls st' = client_calls st ++ bs /\
              Forall good_batch bs).

Definition json_line : out :=
  Line (u "first message appears to be JSON format, setting loader to JSON").

Definition legacy_line : out :=
  Line (u "first message does not appear to be JSON format, setting loader to legacy").

(** The two lines the handler of [handle] prints. *)
Definition caught (e : exn) (st : app) : app :=
  print (Line (msg_prefix st ++ u "Caught exception handling message"))
    (print (Traceback e) st).

(** The state in which [handle] enters its [try]: the counter is
    incremented and, in debug mode, the datagram is printed. *)
Definition received (raw : bytes) (st : app) : app :=
  let st1 := with_message_id (message_id st + 1) st in
  if debug st
  then print (Line (msg_prefix st1 ++ u "received message: " ++ bytes_str raw))
         st1
  else st1.

(** The loader the first payload commits: JSON when [load_message_json]
    returns, legacy when it raises a [ValueError]. *)
Definition detected (raw : bytes) : option loader :=
  match load_message_json raw with
  | Ok _ => Some LoaderJson
  | Raise e => if is_ValueError e then Some LoaderLegacy else None
  end.

End Vocabulary.

(** ** The scenarios *)

(** Scenario B: the message, and the rule with the coercion type [ty]. *)
Definition message_B : value :=
  VDict [ (u "@timestamp", VStr (u "2024-01-01T00:00:00Z"));
          (u "level", VStr (u "warn"));
          (u "latency_ms", VStr (u "120")) ].

Definition rule_B (ty : pystr) : rule :=
  {| name := u "latency"; match_key := u "level";
     match_regex := u "^warn$";
     fields := Some [(u "latency_ms", LDict (Some ty) (u "latency_ms"))];
     tags := None |}.

Definition payload_B : bytes :=
  bytes_requote
    (bytes_of "{'@timestamp':'2024-01-01T00:00:00Z','level':'warn','latency_ms':'120'}").

Definition point_B : point :=
  {| measurement := u "latency"; time := VStr (u "2024-01-01T00:00:00Z");
     pfields := [(u "latency_ms", VInt 120)]; ptags := None |}.

(** Scenario A: the payload, its message, and a rule without field and tag
    lookups. *)
Definition payload_A : bytes :=
  bytes_of "level: error
host: db1

something broke".

Definition message_A : value :=
  VDict [ (u "level", VStr (u "error")); (u "host", VStr (u "db1"));
          (u "message", VStr (u "something broke")) ].

Definition rule_A : rule :=
  {| name := u "errors"; match_key := u "level"; match_regex := u "error";
     fields := None; tags := None |}.

(** The same payload with a header line for [@timestamp]. *)
Definition payload_A_timestamp : bytes :=
  bytes_of "@timestamp: 2024-01-01T00:00:00Z
level: error
host: db1

something broke".

Definition message_A_timestamp : value :=
  VDict [ (u "@timestamp", VStr (u "2024-01-01T00:00:00Z"));
          (u "level", VStr (u "error")); (u "host", VStr (u "db1"));
          (u "message", VStr (u "something broke")) ].

Definition point_A : point :=
  {| measurement := u "errors"; time := VStr (u "2024-01-01T00:00:00Z");
     pfields := [(u "value", VStr (u "something broke"))]; ptags := None |}.

(** A legacy payload whose text holds braces. *)
Definition payload_braces : bytes :=
  bytes_of "@timestamp: 2024-01-01T00:00:00Z
level: error

disk {sda} failed".

Definition message_braces : value :=
  VDict [ (u "@timestamp", VStr (u "2024-01-01T00:00:00Z"));
          (u "level", VStr (u "error"));
          (u "message", VStr (u "disk {sda} failed")) ].

Definition point_braces : point :=
  {| measurement := u "errors"; time := VStr (u "2024-01-01T00:00:00Z");
     pfields := [(u "value", VStr (u "disk {sda} failed"))]; ptags := None |}.

(** A match without groups, as [literal_re_match] returns. *)
Definition no_groups : Match := {| groupdict := [] |}.

(** A rule whose field looks a group up in [host], not in its own key. *)
Definition rule_cross : rule :=
  {| name := u "errors"; match_key := u "level"; match_regex := u "error";
     fields := Some [(u "code", LStr (u "host.code"))]; tags := None |}.

(** A rule with a field that resolves to the empty string and one that
    resolves to a text. *)
Definition rule_two_fields : rule :=
  {| name := u "errors"; match_key := u "level"; match_regex := u "error";
     fields := Some [(u "a", LStr (u "empty")); (u "b", LStr (u "host"))];
     tags := None |}.

Definition message_empty_value : value :=
  VDict [ (u "@timestamp", VStr (u "2024-01-01T00:00:00Z"));
          (u "level", VStr (u "error")); (u "empty", VStr []);
          (u "host", VStr (u "db1")) ].

(** A rule whose only field is not in the message. *)
Definition rule_no_value : rule :=
  {| name := u "errors"; match_key := u "level"; match_regex := u "error";
     fields := Some [(u "x", LStr (u "nothing"))]; tags := None |}.

(** The state after the lookup of [rule_no_value] has printed that its
    reference is missing. *)
Definition after_missing_reference : app :=
  snd (@get_fields_tags demo_runtime Fields rule_no_value message_A_timestamp
         no_groups (Some default_fields) (fresh [rule_no_value] None)).

(** * The configuration *)

(** What [read_config] reads of the loaded configuration: the keys
    ['rules'] and ['message_format'], each there or not. *)
Record config : Type := {
  config_rules : option (list rule);
  config_message_format : option value
}.

Definition with_rules (rs : list rule) (st : app) : app :=
  {| rules := rs; debug := debug st; message_id := message_id st;
     message_loader := message_loader st; stderr := stderr st;
     client_calls := client_calls st |}.

(** [v == s] for the result [v] of [config.get] and a [str] [s]. *)
Definition is_str (v : option value) (s : pystr) : bool :=
  match v with
  | Some (VStr t) => str_eqb t s
  | _ => false
  end.

(** [read_config], from the configuration [yaml.safe_load] returned for the
    file [path] ([args.config]). *)
Definition read_config (path : pystr) (cfg : config) : M unit :=
  log (u "reading config from: {}") [path] None ;;
  modify (with_rules (match config_rules cfg with
                      | Some rs => rs
                      | None => []
                      end)) ;;
  if is_str (config_message_format cfg) (u "json")
  then modify (with_loader LoaderJson)
  else if is_str (config_message_format cfg) (u "legacy")
  then modify (with_loader LoaderLegacy)
  else ret tt.

(** The application [__init__] makes before [setup]. *)
Definition initial (debug_flag : bool) : app :=
  {| rules := []; debug := debug_flag; message_id := 0;
     message_loader := None; stderr := []; client_calls := [] |}.

(** * Further vocabulary *)

Section MoreVocabulary.
Context {rt : Runtime}.

(** The lines of a legacy payload before its first empty line, and the
    lines after it. *)
Fixpoint header_lines (lines : list pystr) : list pystr :=
  match lines with
  | [] => []
  | line :: rest => if is_nil line then [] else line :: header_lines rest
  end.

Fixpoint body_lines (lines : list pystr) : list pystr :=
  match lines with
  | [] => []
  | line :: rest => if is_nil line then rest else body_lines rest
  end.

(** The value of the last of the lines [key: value] whose key is [k], or
    [acc] when there is none. *)
Fixpoint last_header (lines : list pystr) (k : pystr) (acc : option pystr) :
  option pystr :=
  match lines with
  | [] => acc
  | line :: rest =>
      match split_once (u ": ") line with
      | Some (k', v) =>
          last_header rest k (if str_eqb k' k then Some v else acc)
      | None => last_header rest k acc
      end
  end.

(** The lines [rule_value_lookup] prints after the one for a missing
    reference: one for each group of the match. *)
Definition group_lines (m : Match) (st : app) : list out :=
  map (fun kv => Line (msg_prefix st ++ u "  " ++ fst kv ++ u ": " ++
                       py_str (snd kv)))
    (groupdict m).

(** The points one rule gives for a message. *)
Definition rule_points (rl : rule) (msg : value) : list point :=
  match checked msg (match_key rl) (match_regex rl) with
  | Ok (Some m) =>
      match built rl msg m with
      | Ok p => [p]
      | Raise _ => []
      end
  | _ => []
  end.

(** The line of a point can be formatted once more, and what is printed of
    it then. *)
Definition line_ok (p : point) : bool :=
  match py_format (point_line p) [] with
  | Ok _ => true
  | Raise _ => false
  end.

Definition formatted_line (p : point) : pystr :=
  match py_format (point_line p) [] with
  | Ok s => s
  | Raise _ => []
  end.

(** The points whose lines [send_points] prints before one fails. *)
Fixpoint ok_prefix (points : list point) : list point :=
  match points with
  | [] => []
  | p :: rest => if line_ok p then p :: ok_prefix rest else []
  end.

(** A value whose text is known and has no brace. *)
Definition plain_value (v : value) : bool :=
  match v with
  | VStr s => brace_free s
  | VNone | VBool _ | VInt _ => true
  | VFloat _ | VList _ | VDict _ => false
  end.

Definition plain_dict (d : dict) : bool :=
  forallb (fun kv => brace_free (fst kv) && plain_value (snd kv)) d.

Definition plain_point (p : point) : bool :=
  brace_free (measurement p) && plain_value (time p) &&
  plain_dict (pfields p) &&
  match ptags p with Some t => plain_dict t | None => true end.

(** The loader [load_message] uses for [raw] when the application has the
    loader [l]. *)
Definition loader_for (l : option loader) (raw : bytes) : option loader :=
  match l with
  | Some x => Some x
  | None => detected raw
  end.

(** The batch [handle] passes to [write_points] for the datagram [raw], if
    it passes one, with the rules [rs] and the loader [l]. *)
Definition batch_of (rs : list rule) (l : option loader) (raw : bytes) :
  option (list point) :=
  match loader_for l raw with
  | None => None
  | Some x =>
      match run_loader x raw with
      | Ok msg =>
          if truthy msg then
            match parsed rs msg [] with
            | Ok points =>
                if is_nil points then None
                else if forallb line_ok points then Some points else None
            | Raise _ => None
            end
          else None
      | Raise _ => None
      end
  end.

(** The batches [serve_forever] passes to [write_points], datagram by
    datagram. *)
Fixpoint batches_of (rs : list rule) (l : option loader)
  (datagrams : list bytes) : list (list point) :=
  match datagrams with
  | [] => []
  | raw :: rest =>
      match batch_of rs l raw with
      | Some points => [points]
      | None => []
      end ++ batches_of rs (loader_for l raw) rest
  end.

End MoreVocabulary.

(** A runtime whose [json.loads] gives up on a document that opens a list,
    as CPython does with a [RecursionError] on one nested too deep. *)
Definition deep_runtime : Runtime := {|
  re_match := literal_re_match;
  json_loads := fun s =>
    match s with
    | 91 :: _ => Raise (OtherError (u "RecursionError"))
    | _ => table_json_loads s
    end;
  float_of_str := fun _ => None;
  todecimal := fun _ => None;
  float_str := fun _ => u "0.0";
  container_str := fun v => match v with VList _ => u "[]" | _ => u "{}" end;
  exc_str := demo_exc_str;
  bytes_str := fun raw => u "b'" ++ map Byte.to_N raw ++ u "'";
  write_points := fun _ _ => None
|}.

(** ** Data for the further properties *)

(** Every value of the dictionary is a [str]. *)
Definition all_str (d : dict) : Prop :=
  forall k v, dict_get d k = Some v -> exists s, v = VStr s.

(** A payload whose header has the key [message], and that has the key
    [host] twice. *)
Definition payload_overridden : bytes :=
  bytes_of "message: from the header
host: db1
host: db2

from the body".

(** [st] after printing the lines [os]. *)
Definition print_all (os : list out) (st : app) : app :=
  fold_left (fun s o => print o s) os st.

(** The line [rule_value_lookup] prints for a reference that is not
    there. *)
Definition missing_reference_line (ref : pystr) (st : app) : out :=
  Line (msg_prefix st ++ u "error: invalid field/tag reference: " ++ ref ++
        u "; matches were:").

(** A message with an empty text and a zero, and a rule that reads them as
    integers. *)
Definition message_zero : value :=
  VDict [ (u "@timestamp", VStr (u "2024-01-01T00:00:00Z"));
          (u "level", VStr (u "error"));
          (u "count", VStr (u "0")); (u "size", VStr []) ].

Definition rule_zero : rule :=
  {| name := u "errors"; match_key := u "level"; match_regex := u "error";
     fields := Some [(u "count", LDict (Some (u "int")) (u "count"))];
     tags := None |}.

(** A match with the group [code]. *)
Definition match_code : Match :=
  {| groupdict := [(u "code", VStr (u "E42"))] |}.

(** A rule whose match key has a dot. *)
Definition rule_dotted_key : rule :=
  {| name := u "errors"; match_key := u "log.level";
     match_regex := u "error"; fields := None; tags := None |}.

(** Two rules on [level], and a message whose [level] is a number. *)
Definition rule_host : rule :=
  {| name := u "hosts"; match_key := u "host"; match_regex := u "db";
     fields := Some [(u "text", LStr (u "message"))]; tags := None |}.

Definition message_number : value :=
  VDict [ (u "@timestamp", VStr (u "2024-01-01T00:00:00Z"));
          (u "host", VStr (u "db1")); (u "level", VInt 3);
          (u "message", VStr (u "something broke")) ].

(** [demo_runtime] with another [json.loads]. *)
Definition runtime_with_json (loads : pystr -> Result value) : Runtime := {|
  re_match := literal_re_match;
  json_loads := loads;
  float_of_str := fun _ => None;
  todecimal := fun _ => None;
  float_str := fun _ => u "0.0";
  container_str := fun v => match v with VList _ => u "[]" | _ => u "{}" end;
  exc_str := demo_exc_str;
  bytes_str := fun raw => u "b'" ++ map Byte.to_N raw ++ u "'";
  write_points := fun _ _ => None
|}.

(** A JSON payload whose [level] is a number, and a runtime whose
    [json.loads] reads it. *)
Definition payload_number : bytes :=
  bytes_requote
    (bytes_of "{'@timestamp':'2024-01-01T00:00:00Z','host':'db1','level':3,'message':'something broke'}").

Definition number_runtime : Runtime :=
  runtime_with_json (fun s =>
    if str_eqb s (map Byte.to_N payload_number) then Ok message_number
    else Raise ValueError).

(** The point [rule_host] gives for the messages with the host [db1]. *)
Definition point_host : point :=
  {| measurement := u "hosts"; time := VStr (u "2024-01-01T00:00:00Z");
     pfields := [(u "text", VStr (u "something broke"))]; ptags := None |}.

(** The line [send_points] prints for a point, in the state [st]. *)
Definition printed_line {rt : Runtime} (st : app) (p : point) : out :=
  Line (msg_prefix st ++ formatted_line p).

(** The rules, the loader and the calls of a state. *)
Definition core (st : app) : list rule * option loader * list (list point) :=
  (rules st, message_loader st, client_calls st).

(** A rule whose ['fields'] is there and empty. *)
Definition rule_empty_fields : rule :=
  {| name := u "errors"; match_key := u "level"; match_regex := u "error";
     fields := Some []; tags := Some [(u "host", LStr (u "host"))] |}.

(** A runtime whose [json.loads] raises a [RecursionError] on a document
    that opens a thousand lists or more, as CPython does. *)
Fixpoint opening_brackets (s : pystr) : N :=
  match s with
  | 91 :: s' => 1 + opening_brackets s'
  | _ => 0
  end.

Definition nesting_runtime : Runtime :=
  runtime_with_json (fun s =>
    if 1000 <=? opening_brackets s
    then Raise (OtherError (u "RecursionError"))
    else table_json_loads s).

(** A payload of three thousand opening brackets, and one that is neither
    JSON nor a legacy message. *)
Definition payload_deep : bytes := repeat x5b 3000.

Definition payload_garbage : bytes := bytes_of "garbage".

(** * Properties *)

Unset Implicit Arguments.

(** ** The built-in functions on small inputs *)

Example splitlines_boundaries :
  splitlines [97; 10; 98; 13; 10; 99; 13; 100; 11; 101; 133; 102; 31; 103]
  = [[97]; [98]; [99]; [100]; [101]; [102; 31; 103]] /\
  splitlines [] = [] /\ splitlines [10] = [[]] /\
  splitlines [97; 10] = [[97]] /\
  splitlines [97; 10; 10; 98] = [[97]; []; [98]] /\
  splitlines [13; 10; 10] = [[]; []].
Proof. repeat split; reflexivity. Qed.

Example strip_and_split :
  strip (u "  a b  ") = u "a b" /\ strip [160; 97; 8232] = [97] /\
  split_once (u ": ") (u "a: b: c") = Some (u "a", u "b: c") /\
  split_once (u ": ") (u "a:b") = None /\
  split_once (u ".") (u "level.code.x") = Some (u "level", u "code.x").
Proof. repeat split; reflexivity. Qed.

Example int_of_str_literals :
  @int_of_str demo_runtime (u " 12_3 ") = Some 123%Z /\
  @int_of_str demo_runtime (u "0012") = Some 12%Z /\
  @int_of_str demo_runtime (u "-5") = Some (-5)%Z /\
  @int_of_str demo_runtime (u "- 5") = None /\
  @int_of_str demo_runtime (u "1__2") = None /\
  @int_of_str demo_runtime (u "1_") = None /\
  @int_of_str demo_runtime [28; 53] = None /\
  @int_of_str demo_runtime [160; 53] = Some 5%Z /\
  @int_of_str demo_runtime [] = None.
Proof. repeat split; reflexivity. Qed.

Example int_of_str_digit_limit :
  @int_of_str demo_runtime (repeat 48 4300) = Some 0%Z /\
  @int_of_str demo_runtime (repeat 48 4301) = None /\
  option_map Z.sgn (@int_of_str demo_runtime (45 :: repeat 49 4300))
  = Some (-1)%Z /\
  @int_of_str demo_runtime (45 :: repeat 49 4301) = None /\
  option_map Z.sgn (@int_of_str demo_runtime (u "1_" ++ repeat 49 4299))
  = Some 1%Z /\
  @int_of_str demo_runtime (u "1_" ++ repeat 49 4300) = None /\
  @int_of_str demo_runtime (u " 1_0 " ++ repeat 32 5000) = Some 10%Z.
Proof. repeat apply conj; vm_compute; reflexivity. Qed.

Example py_format_braces :
  py_format (u "a{b") [] = Raise FormatError /\
  py_format (u "a}b") [] = Raise FormatError /\
  py_format (u "{}") [] = Raise FormatError /\
  py_format (u "{x}") [] = Raise FormatError /\
  py_format (u "{{}}") [] = Ok (u "{}") /\
  py_format (u "{{}") [] = Raise FormatError /\
  py_format (u "  {}: {}") [u "k"; u "v"] = Ok (u "  k: v").
Proof. repeat split; reflexivity. Qed.

Example utf8_decode_strict :
  utf8_decode [x68; xc3; xa9] = Some [104; 233] /\
  utf8_decode [xe2; x80; xa8] = Some [8232] /\
  utf8_decode [xc0; x80] = None /\ utf8_decode [xed; xa0; x80] = None /\
  utf8_decode [xff] = None /\ utf8_decode [xc3] = None.
Proof. repeat split; reflexivity. Qed.

(** ** Strings and dictionaries *)

Lemma str_eqb_refl (a : pystr) : str_eqb a a = true.
Proof.
  induction a as [|x a IH]; simpl; [reflexivity|].
  now rewrite N.eqb_refl, IH.
Qed.

Lemma str_eqb_eq (a c : pystr) : str_eqb a c = true <-> a = c.
Proof.
  split; [|intros ->; apply str_eqb_refl].
  revert c; induction a as [|x a IH]; intros [|y c]; simpl; try easy.
  intros H; apply andb_true_iff in H as [H1 H2].
  apply N.eqb_eq in H1; apply IH in H2; congruence.
Qed.

Lemma str_eqb_neq (a c : pystr) : a <> c -> str_eqb a c = false.
Proof.
  intros H; destruct (str_eqb a c) eqn:E; [|reflexivity].
  now apply str_eqb_eq in E.
Qed.

Lemma dict_get_In (d : dict) (k : pystr) (v : value) :
  dict_get d k = Some v -> In (k, v) d.
Proof.
  induction d as [|[k' v'] d IH]; simpl; [discriminate|].
  destruct (str_eqb k' k) eqn:E.
  - apply str_eqb_eq in E; intros [= ->]; left; now subst.
  - intros H; right; auto.
Qed.

Lemma dict_get_set_same (d : dict) (k : pystr) (v : value) :
  dict_get (dict_set d k v) k = Some v.
Proof.
  induction d as [|[k' v'] d IH]; simpl.
  - now rewrite str_eqb_refl.
  - destruct (str_eqb k' k) eqn:E; simpl; now rewrite E.
Qed.

Lemma dict_get_set_other (d : dict) (k k0 : pystr) (v : value) :
  k0 <> k -> dict_get (dict_set d k v) k0 = dict_get d k0.
Proof.
  intros Hne; induction d as [|[k' v'] d IH]; simpl.
  - rewrite str_eqb_neq; [reflexivity|congruence].
  - destruct (str_eqb k' k) eqn:E; simpl.
    + apply str_eqb_eq in E; subst k'.
      rewrite (str_eqb_neq k k0); [reflexivity|congruence].
    + destruct (str_eqb k' k0); [reflexivity|apply IH].
Qed.

Lemma dict_set_not_nil (d : dict) (k : pystr) (v : value) :
  is_nil (dict_set d k v) = false.
Proof.
  destruct d as [|[k' v'] d]; simpl; [reflexivity|].
  now destruct (str_eqb k' k).
Qed.

(** ** Formatting a log line never fails on the program's own formats *)

Lemma py_format_plain (s fmt : pystr) (args : list pystr) :
  brace_free s = true ->
  py_format (s ++ fmt) args =
  match py_format fmt args with
  | Ok t => Ok (s ++ t)
  | Raise e => Raise e
  end.
Proof.
  induction s as [|c s IH]; simpl; intros H.
  - now destruct (py_format fmt args).
  - apply andb_true_iff in H as [Hc Hs].
    apply andb_true_iff in Hc as [H1 H2].
    apply negb_true_iff in H1, H2. rewrite H1, H2, (IH Hs).
    now destruct (py_format fmt args).
Qed.

Lemma brace_free_app (s t : pystr) :
  brace_free (s ++ t) = brace_free s && brace_free t.
Proof. apply forallb_app. Qed.

Lemma uint_brace_free (d : Decimal.uint) :
  brace_free (u (NilEmpty.string_of_uint d)) = true.
Proof. induction d; simpl; auto. Qed.

Lemma nilzero_brace_free (d : Decimal.uint) :
  brace_free (u (NilZero.string_of_uint d)) = true.
Proof.
  destruct d; try exact (uint_brace_free _); reflexivity.
Qed.

Lemma str_of_Z_brace_free (z : Z) : brace_free (str_of_Z z) = true.
Proof.
  unfold str_of_Z, NilZero.string_of_int.
  destruct (Z.to_int z) as [d|d]; [apply nilzero_brace_free|].
  change (brace_free ([45] ++ u (NilZero.string_of_uint d)) = true).
  rewrite brace_free_app, nilzero_brace_free. reflexivity.
Qed.

Lemma msg_prefix_brace_free (st : app) : brace_free (msg_prefix st) = true.
Proof.
  unfold msg_prefix. rewrite !brace_free_app, str_of_Z_brace_free.
  reflexivity.
Qed.

Section Logging.
Context {rt : Runtime}.

Lemma app_log_eq (msg : pystr) (args : list pystr) (exc : option exn)
  (st : app) :
  app_log msg args exc st = log (msg_prefix st ++ msg) args exc st.
Proof.
  unfold app_log, msg_prefix.
  change (py_format (u "[msg {}]: {}") [str_of_Z (message_id st); msg])
    with (Ok (u "[msg " ++ str_of_Z (message_id st) ++ u "]: " ++ msg ++ [])).
  now rewrite app_nil_r, <- !app_assoc.
Qed.

Lemma app_log_ok (msg s : pystr) (args : list pystr) (st : app) :
  py_format msg args = Ok s ->
  app_log msg args None st = (Ok tt, print (Line (msg_prefix st ++ s)) st).
Proof.
  intros H. rewrite app_log_eq. unfold log.
  now rewrite py_format_plain, H by apply msg_prefix_brace_free.
Qed.

Lemma app_log_raise (msg : pystr) (args : list pystr) (e : exn) (st : app) :
  py_format msg args = Raise e ->
  app_log msg args None st = (Raise e, st).
Proof.
  intros H. rewrite app_log_eq. unfold log.
  now rewrite py_format_plain, H by apply msg_prefix_brace_free.
Qed.

End Logging.

(** ** Sequencing *)

Lemma bind_ok (A B : Type) (m : M A) (k : A -> M B) (a : A) (st st' : app) :
  m st = (Ok a, st') -> bind m k st = k a st'.
Proof. unfold bind; now intros ->. Qed.

Lemma bind_raise (A B : Type) (m : M A) (k : A -> M B) (e : exn)
  (st st' : app) :
  m st = (Raise e, st') -> bind m k st = (Raise e, st').
Proof. unfold bind; now intros ->. Qed.

Lemma try_except_ok (A : Type) (m : M A) (c : exn -> bool) (h : exn -> M A)
  (a : A) (st st' : app) :
  m st = (Ok a, st') -> try_except m c h st = (Ok a, st').
Proof. unfold try_except; now intros ->. Qed.

Lemma try_except_caught (A : Type) (m : M A) (c : exn -> bool)
  (h : exn -> M A) (e : exn) (st st' : app) :
  m st = (Raise e, st') -> c e = true -> try_except m c h st = h e st'.
Proof. unfold try_except; now intros -> ->. Qed.

Lemma bind_ret (A B : Type) (a : A) (k : A -> M B) (st : app) :
  bind (ret a) k st = k a st.
Proof. reflexivity. Qed.

Lemma bind_eq (A B : Type) (m : M A) (k : A -> M B) (st : app) :
  bind m k st =
  match m st with
  | (Ok a, st') => k a st'
  | (Raise e, st') => (Raise e, st')
  end.
Proof. reflexivity. Qed.

Lemma try_lift_ok (A : Type) (a : A) (c : exn -> bool) (h : exn -> M A)
  (st : app) :
  try_except (lift (Ok a)) c h st = (Ok a, st).
Proof. reflexivity. Qed.

Lemma try_lift_raise (A : Type) (e : exn) (c : exn -> bool)
  (h : exn -> M A) (st : app) :
  try_except (lift (Raise e)) c h st = if c e then h e st else (Raise e, st).
Proof. reflexivity. Qed.

(** ** What [strip] removes *)

Lemma lstrip_by_split (p : N -> bool) (s : pystr) :
  exists a, s = a ++ lstrip_by p s /\ forallb p a = true /\
            match lstrip_by p s with
            | [] => True
            | c :: _ => p c = false
            end.
Proof.
  induction s as [|c s (a & E & F & H)]; [now exists []|].
  simpl. destruct (p c) eqn:P.
  - exists (c :: a). simpl. rewrite P, F. split; [now f_equal|now split].
  - exists []. now split.
Qed.

Lemma forallb_rev_true (p : N -> bool) (l : pystr) :
  forallb p l = true -> forallb p (rev l) = true.
Proof.
  rewrite !forallb_forall. intros H x Hx. apply H. now apply in_rev.
Qed.

(** [strip_by p s] is [s] without the longest run of characters that [p]
    holds of at each end. *)
Lemma strip_by_trims (p : N -> bool) (s : pystr) :
  exists a z,
    s = a ++ strip_by p s ++ z /\
    forallb p a = true /\ forallb p z = true /\
    match strip_by p s with [] => True | c :: _ => p c = false end /\
    match rev (strip_by p s) with [] => True | c :: _ => p c = false end.
Proof.
  destruct (lstrip_by_split p s) as (a & Ea & Fa & Ha).
  destruct (lstrip_by_split p (rev (lstrip_by p s))) as (b & Eb & Fb & Hb).
  unfold strip_by.
  assert (Et : lstrip_by p s =
               rev (lstrip_by p (rev (lstrip_by p s))) ++ rev b).
  { rewrite <- rev_app_distr, <- Eb. now rewrite rev_involutive. }
  exists a, (rev b). split; [now rewrite <- Et|].
  split; [exact Fa|]. split; [now apply forallb_rev_true|]. split.
  - destruct (rev (lstrip_by p (rev (lstrip_by p s)))) as [|c r] eqn:R;
      [exact I|].
    rewrite Et in Ha. exact Ha.
  - now rewrite rev_involutive.
Qed.

(** [isspace] holds of the white space of Python and of nothing else. *)
Lemma isspace_whitespace (c : N) : isspace c = true <-> In c whitespace.
Proof.
  split.
  - unfold isspace. rewrite !orb_true_iff, !andb_true_iff, !N.leb_le,
      !N.eqb_eq. intros H.
    assert (c = 9 \/ c = 10 \/ c = 11 \/ c = 12 \/ c = 13 \/ c = 28 \/
            c = 29 \/ c = 30 \/ c = 31 \/ c = 32 \/ c = 133 \/ c = 160 \/
            c = 5760 \/ c = 8192 \/ c = 8193 \/ c = 8194 \/ c = 8195 \/
            c = 8196 \/ c = 8197 \/ c = 8198 \/ c = 8199 \/ c = 8200 \/
            c = 8201 \/ c = 8202 \/ c = 8232 \/ c = 8233 \/ c = 8239 \/
            c = 8287 \/ c = 12288) as E by lia.
    unfold whitespace.
    repeat (destruct E as [->|E]; [simpl; tauto|]). subst c. simpl. tauto.
  - unfold whitespace. intros H.
    repeat (destruct H as [<-|H]; [reflexivity|]). destruct H.
Qed.

(** ** The matcher *)

Section Matcher.
Context {rt : Runtime}.

Lemma check_re_dict (d : dict) (key pattern : pystr) (st : app) :
  check_re (VDict d) key pattern st =
  match dict_get d key with
  | None => (Ok None, print (missing_key_line key st) st)
  | Some (VStr s) => (Ok (re_match pattern (strip s)), st)
  | Some _ => (Raise AttributeError, st)
  end.
Proof.
  unfold check_re, try_except, bind, lift, ret, subscript.
  destruct (dict_get d key) as [v|]; simpl.
  - destruct v; reflexivity.
  - unfold bind.
    erewrite app_log_ok by reflexivity. reflexivity.
Qed.

(** A message that is not a mapping cannot be subscripted by a key. *)
Lemma check_re_not_a_mapping (msg : value) (key pattern : pystr) (st : app) :
  (forall d, msg <> VDict d) ->
  check_re msg key pattern st = (Raise TypeError, st).
Proof.
  intros H. unfold check_re, try_except. rewrite bind_eq. unfold lift at 1.
  destruct msg; try reflexivity. now destruct (H d).
Qed.

(** C6, for a message that is a mapping: a rule whose target field is not
    in the message logs the missing key, is a non-match that raises
    nothing, and contributes no point: the loop goes on with the points it
    had.  A field that is there and holds a string is matched from its
    start with [re.match] after [strip], which takes off the white space at
    both ends and nothing else, the white space being the code points of
    [whitespace].  Outside of that [check_re] raises: a
    [TypeError] for a message that is not a mapping, an [AttributeError]
    for a field that is not a string. *)
Theorem missing_target_field_is_non_match (msg : value)
  (key pattern : pystr) (st : app) :
  check_re msg key pattern st =
  match msg with
  | VDict d =>
      match dict_get d key with
      | None => (Ok None, print (missing_key_line key st) st)
      | Some (VStr s) => (Ok (re_match pattern (strip s)), st)
      | Some _ => (Raise AttributeError, st)
      end
  | _ => (Raise TypeError, st)
  end /\
  (forall d : dict,
     msg = VDict d -> dict_get d key = None ->
     forall (rl : rule) (rs : list rule) (points : list point),
       match_key rl = key -> match_regex rl = pattern ->
       parse_message_loop (rl :: rs) msg points st =
       parse_message_loop rs msg points
         (print (missing_key_line key st) st)) /\
  (forall s : pystr,
     exists a z,
       s = a ++ strip s ++ z /\
       forallb isspace a = true /\ forallb isspace z = true /\
       match strip s with [] => True | c :: _ => isspace c = false end /\
       match rev (strip s) with [] => True | c :: _ => isspace c = false end) /\
  (forall c : N, isspace c = true <-> In c whitespace).
Proof.
  split; [|split; [|split; [|apply isspace_whitespace]]].
  - destruct msg; try apply check_re_dict;
      (apply check_re_not_a_mapping; intros d0; discriminate).
  - intros d -> Hnone rl rs points Hk Hp. simpl. unfold bind at 1.
    rewrite Hk, Hp, check_re_dict, Hnone. reflexivity.
  - intros s. apply strip_by_trims.
Qed.

End Matcher.

(** ** The value resolver *)

Lemma printed_refl (st : app) : printed st st.
Proof. exists []. rewrite app_nil_r. now destruct st. Qed.

Lemma printed_trans (st1 st2 st3 : app) :
  printed st1 st2 -> printed st2 st3 -> printed st1 st3.
Proof.
  intros [o1 ->] [o2 ->]. exists (o1 ++ o2). simpl. now rewrite app_assoc.
Qed.

Lemma printed_print (o : out) (st : app) : printed st (print o st).
Proof. now exists [o]. Qed.

Lemma printed_message_id (st st' : app) :
  printed st st' -> message_id st' = message_id st.
Proof. now intros [o ->]. Qed.

Lemma printed_loader (st st' : app) :
  printed st st' -> message_loader st' = message_loader st.
Proof. now intros [o ->]. Qed.

Lemma printed_calls (st st' : app) :
  printed st st' -> client_calls st' = client_calls st.
Proof. now intros [o ->]. Qed.

Lemma printed_rules (st st' : app) :
  printed st st' -> rules st' = rules st.
Proof. now intros [o ->]. Qed.

Section Resolver.
Context {rt : Runtime}.

Lemma log_groups_ok (groups : dict) (st : app) :
  exists st', log_groups groups st = (Ok tt, st') /\ printed st st'.
Proof.
  revert st; induction groups as [|[k v] g IH]; intros st; simpl.
  - exists st; split; [reflexivity|apply printed_refl].
  - unfold bind. erewrite app_log_ok by reflexivity.
    destruct (IH (print (Line (msg_prefix st ++ u "  " ++ k ++ u ": " ++
                                 py_str v ++ [])) st))
      as (st' & E & P).
    exists st'; split; [exact E|].
    eapply printed_trans; [apply printed_print|exact P].
Qed.

(** [rule_value_lookup], case by case. *)
Lemma rule_value_lookup_cases (rl : rule) (msg : value) (m : Match)
  (l : lookup) (st : app) :
  match lookup_coercion l with
  | Some ty =>
      match assoc TYPE_MAP ty with
      | None => rule_value_lookup rl msg m l st = (Raise (KeyError ty), st)
      | Some f =>
          match reference_value rl msg m (lookup_ref l) with
          | Ok v =>
              rule_value_lookup rl msg m l st =
              ((if truthy v then f v else Ok v), st)
          | Raise e =>
              if is_KeyError e
              then exists st', rule_value_lookup rl msg m l st = (Ok VNone, st')
                               /\ printed st st'
              else rule_value_lookup rl msg m l st = (Raise e, st)
          end
      end
  | None =>
      match reference_value rl msg m (lookup_ref l) with
      | Ok v => rule_value_lookup rl msg m l st = (Ok v, st)
      | Raise e =>
          if is_KeyError e
          then exists st', rule_value_lookup rl msg m l st = (Ok VNone, st')
                           /\ printed st st'
          else rule_value_lookup rl msg m l st = (Raise e, st)
      end
  end.
Proof.
  assert (Hh : forall ref,
    exists st',
      (app_log (u "error: invalid field/tag reference: {}; matches were:")
         [ref] None ;; log_groups (groupdict m) ;; ret VNone) st
      = (Ok VNone, st') /\ printed st st').
  { intros ref. unfold bind at 1. erewrite app_log_ok by reflexivity.
    unfold bind.
    match goal with |- context [log_groups _ ?s] =>
      destruct (log_groups_ok (groupdict m) s) as (st' & E & P) end.
    exists st'. rewrite E. split; [reflexivity|].
    eapply printed_trans; [apply printed_print|exact P]. }
  unfold rule_value_lookup, reference_value.
  destruct l as [ref|[ty|] ref]; cbv beta iota delta [lookup_coercion lookup_ref].
  - rewrite bind_ret. cbv beta iota delta [fst snd]. rewrite bind_eq.
    destruct (if contains 46 ref then _ else _) as [v|e].
    + now rewrite try_lift_ok.
    + rewrite try_lift_raise. destruct (is_KeyError e); [|reflexivity].
      destruct (Hh ref) as (st' & E & P). exists st'. now rewrite E.
  - destruct (assoc TYPE_MAP ty) as [f|]; [|reflexivity].
    rewrite bind_ret. cbv beta iota delta [fst snd]. rewrite bind_eq.
    destruct (if contains 46 ref then _ else _) as [v|e].
    + rewrite try_lift_ok. now destruct (truthy v).
    + rewrite try_lift_raise. destruct (is_KeyError e); [|reflexivity].
      destruct (Hh ref) as (st' & E & P). exists st'. now rewrite E.
  - rewrite bind_ret. cbv beta iota delta [fst snd]. rewrite bind_eq.
    destruct (if contains 46 ref then _ else _) as [v|e].
    + now rewrite try_lift_ok.
    + rewrite try_lift_raise. destruct (is_KeyError e); [|reflexivity].
      destruct (Hh ref) as (st' & E & P). exists st'. now rewrite E.
Qed.

Lemma rule_value_lookup_resolved (rl : rule) (msg : value) (m : Match)
  (l : lookup) (st : app) :
  exists st',
    rule_value_lookup rl msg m l st = (resolved rl msg m l, st') /\
    printed st st'.
Proof.
  pose proof (rule_value_lookup_cases rl msg m l st) as H.
  unfold resolved.
  destruct (lookup_coercion l) as [ty|].
  - destruct (assoc TYPE_MAP ty) as [f|].
    + destruct (reference_value rl msg m (lookup_ref l)) as [v|e].
      * exists st; split; [exact H|apply printed_refl].
      * destruct (is_KeyError e).
        -- destruct H as (st' & E & P). now exists st'.
        -- exists st; split; [exact H|apply printed_refl].
    + exists st; split; [exact H|apply printed_refl].
  - destruct (reference_value rl msg m (lookup_ref l)) as [v|e].
    + exists st; split; [exact H|apply printed_refl].
    + destruct (is_KeyError e).
      * destruct H as (st' & E & P). now exists st'.
      * exists st; split; [exact H|apply printed_refl].
Qed.

Lemma rule_value_lookup_fst (rl : rule) (msg : value) (m : Match)
  (l : lookup) (st : app) :
  fst (rule_value_lookup rl msg m l st) = resolved rl msg m l.
Proof.
  destruct (rule_value_lookup_resolved rl msg m l st) as (st' & E & _).
  now rewrite E.
Qed.

Lemma get_fields_tags_loop_collected (rl : rule) (msg : value) (m : Match)
  (items : list (pystr * lookup)) (r : dict) (st : app) :
  exists st',
    get_fields_tags_loop rl msg m items r st =
    (collected rl msg m items r, st') /\ printed st st'.
Proof.
  revert r st; induction items as [|[k l] items IH]; intros r st; simpl.
  - exists st; split; [reflexivity|apply printed_refl].
  - rewrite bind_eq.
    destruct (rule_value_lookup_resolved rl msg m l st) as (st1 & E & P).
    rewrite E. destruct (resolved rl msg m l) as [v|e].
    + destruct (IH (if truthy v then dict_set r k v else r) st1)
        as (st2 & E2 & P2).
      exists st2; split; [exact E2|eapply printed_trans; eauto].
    + now exists st1.
Qed.

Lemma get_fields_tags_collected (lt : lookup_type) (rl : rule) (msg : value)
  (m : Match) (default : option (list (pystr * lookup))) (st : app) :
  exists st',
    get_fields_tags lt rl msg m default st =
    (collected rl msg m (lookup_items lt rl default) [], st') /\
    printed st st'.
Proof. apply get_fields_tags_loop_collected. Qed.

Lemma collected_truthy (rl : rule) (msg : value) (m : Match)
  (items : list (pystr * lookup)) (r0 r : dict) :
  collected rl msg m items r0 = Ok r ->
  forall k v, dict_get r k = Some v ->
    dict_get r0 k = Some v \/
    (truthy v = true /\
     exists l, In (k, l) items /\ resolved rl msg m l = Ok v).
Proof.
  revert r0; induction items as [|[k0 l0] items IH]; intros r0; simpl.
  - intros [= ->] k v H; now left.
  - destruct (resolved rl msg m l0) as [v0|e] eqn:E0; [|discriminate].
    intros H k v Hk. destruct (IH _ H k v Hk) as [Hin|(Ht & l & Hl & Hr)].
    + destruct (truthy v0) eqn:T0; [|now left].
      destruct (list_eq_dec N.eq_dec k k0) as [->|Hne].
      * rewrite dict_get_set_same in Hin. injection Hin as <-.
        right; split; [exact T0|]. exists l0; split; [now left|exact E0].
      * rewrite dict_get_set_other in Hin by exact Hne. now left.
    + right; split; [exact Ht|]. exists l; split; [now right|exact Hr].
Qed.

Lemma collected_skips (rl : rule) (msg : value) (m : Match)
  (items : list (pystr * lookup)) (r0 r : dict) (k : pystr) :
  collected rl msg m items r0 = Ok r ->
  dict_get r0 k = None ->
  (forall l v, In (k, l) items -> resolved rl msg m l = Ok v ->
               truthy v = false) ->
  dict_get r k = None.
Proof.
  revert r0; induction items as [|[k0 l0] items IH]; intros r0; simpl.
  - now intros [= ->].
  - destruct (resolved rl msg m l0) as [v0|e] eqn:E0; [|discriminate].
    intros H Hk Hf. apply (IH _ H).
    + destruct (truthy v0) eqn:T0; [|exact Hk].
      destruct (list_eq_dec N.eq_dec k k0) as [->|Hne].
      * rewrite (Hf l0 v0) in T0; [discriminate|now left|exact E0].
      * now rewrite dict_get_set_other.
    + intros l v Hin. apply Hf. now right.
Qed.

Lemma collected_without (rl : rule) (msg : value) (m : Match)
  (before after : list (pystr * lookup)) (k : pystr) (l : lookup)
  (v : value) (r0 : dict) :
  resolved rl msg m l = Ok v -> truthy v = false ->
  collected rl msg m (before ++ (k, l) :: after) r0 =
  collected rl msg m (before ++ after) r0.
Proof.
  intros E T. revert r0; induction before as [|[k0 l0] before IH];
    intros r0; simpl.
  - now rewrite E, T.
  - destruct (resolved rl msg m l0); [apply IH|reflexivity].
Qed.

End Resolver.

(** ** The point builder *)

Section Builder.
Context {rt : Runtime}.

Lemma make_point_built (rl : rule) (msg : value) (m : Match) (st : app) :
  exists st', make_point rl msg m st = (built rl msg m, st') /\ printed st st'.
Proof.
  unfold make_point, built. rewrite bind_eq. unfold lift at 1.
  destruct (subscript msg (u "@timestamp")) as [t|e];
    [|exists st; split; [reflexivity|apply printed_refl]].
  rewrite bind_eq.
  destruct (get_fields_tags_collected Fields rl msg m (Some default_fields) st)
    as (st1 & E1 & P1).
  unfold default_fields in E1. rewrite E1.
  fold default_fields.
  destruct (collected rl msg m (lookup_items Fields rl (Some default_fields)) [])
    as [fs|e]; [|now exists st1].
  destruct (is_nil fs); [now exists st1|].
  rewrite bind_eq.
  destruct (get_fields_tags_collected Tags rl msg m None st1)
    as (st2 & E2 & P2).
  rewrite E2.
  destruct (collected rl msg m (lookup_items Tags rl None) []) as [ts|e];
    (exists st2; split; [reflexivity|eapply printed_trans; eauto]).
Qed.

Lemma make_point_no_timestamp (rl : rule) (d : dict) (m : Match) (st : app) :
  dict_get d (u "@timestamp") = None ->
  make_point rl (VDict d) m st = (Raise (KeyError (u "@timestamp")), st).
Proof.
  intros H. unfold make_point. rewrite bind_eq. unfold lift at 1, subscript.
  now rewrite H.
Qed.

Lemma built_fields (rl : rule) (msg : value) (m : Match) (p : point) :
  built rl msg m = Ok p -> is_nil (pfields p) = false.
Proof.
  unfold built.
  destruct (subscript msg (u "@timestamp")); [|discriminate].
  destruct (collected rl msg m (lookup_items Fields rl (Some default_fields)) [])
    as [fs|]; [|discriminate].
  destruct (is_nil fs) eqn:E; [discriminate|].
  destruct (collected rl msg m (lookup_items Tags rl None) []);
    [|discriminate].
  now intros [= <-].
Qed.

(** One turn of the loop of [parse_message]. *)
Lemma parse_step_raise (rl : rule) (rs : list rule) (msg : value)
  (points : list point) (e : exn) (st st1 : app) :
  check_re msg (match_key rl) (match_regex rl) st = (Raise e, st1) ->
  parse_message_loop (rl :: rs) msg points st = (Raise e, st1).
Proof. intros H. simpl. now rewrite bind_eq, H. Qed.

Lemma parse_step_no_match (rl : rule) (rs : list rule) (msg : value)
  (points : list point) (st st1 : app) :
  check_re msg (match_key rl) (match_regex rl) st = (Ok None, st1) ->
  parse_message_loop (rl :: rs) msg points st =
  parse_message_loop rs msg points st1.
Proof. intros H. simpl. now rewrite bind_eq, H. Qed.

Lemma parse_step_point (rl : rule) (rs : list rule) (msg : value)
  (points : list point) (m : Match) (p : point) (st st1 st2 : app) :
  check_re msg (match_key rl) (match_regex rl) st = (Ok (Some m), st1) ->
  make_point rl msg m st1 = (Ok p, st2) ->
  parse_message_loop (rl :: rs) msg points st =
  parse_message_loop rs msg (points ++ [p]) st2.
Proof.
  intros H1 H2. simpl. rewrite bind_eq, H1, bind_eq.
  unfold try_except. now rewrite bind_eq, H2.
Qed.

Lemma parse_step_failed (rl : rule) (rs : list rule) (msg : value)
  (points : list point) (m : Match) (e : exn) (st st1 st2 : app) :
  check_re msg (match_key rl) (match_regex rl) st = (Ok (Some m), st1) ->
  make_point rl msg m st1 = (Raise e, st2) ->
  parse_message_loop (rl :: rs) msg points st =
  parse_message_loop rs msg points (print (failed_point_line e st2) st2).
Proof.
  intros H1 H2. simpl. rewrite bind_eq, H1, bind_eq.
  unfold try_except. rewrite bind_eq, H2. simpl is_Exception.
  cbv iota. rewrite bind_eq. erewrite app_log_ok by reflexivity.
  unfold failed_point_line. now rewrite app_nil_r.
Qed.

End Builder.

(** ** The points of a message *)

Section Points.
Context {rt : Runtime}.

Lemma check_re_checked (msg : value) (key pattern : pystr) (st : app) :
  exists st',
    check_re msg key pattern st = (checked msg key pattern, st') /\
    printed st st'.
Proof.
  unfold check_re, checked, try_except. rewrite bind_eq. unfold lift at 1.
  destruct (subscript msg key) as [v|e] eqn:E.
  - rewrite bind_eq. unfold lift at 1.
    destruct v; simpl; try (exists st; split; [reflexivity|apply printed_refl]).
  - assert (He : e = KeyError key \/ e = TypeError).
    { destruct msg; simpl in E; try (injection E as <-; now right).
      destruct (dict_get d key); [discriminate|injection E as <-; now left]. }
    destruct He as [-> | ->]; simpl.
    + rewrite bind_eq. erewrite app_log_ok by reflexivity.
      eexists; split; [reflexivity|apply printed_print].
    + exists st; split; [reflexivity|apply printed_refl].
Qed.

Lemma parse_message_loop_parsed (rs : list rule) (msg : value)
  (points : list point) (st : app) :
  exists st',
    parse_message_loop rs msg points st = (parsed rs msg points, st') /\
    printed st st'.
Proof.
  revert points st; induction rs as [|rl rs IH]; intros points st.
  - exists st; split; [reflexivity|apply printed_refl].
  - destruct (check_re_checked msg (match_key rl) (match_regex rl) st)
      as (st1 & E1 & P1).
    cbn [parsed].
    destruct (checked msg (match_key rl) (match_regex rl)) as [[m|]|e].
    + destruct (make_point_built rl msg m st1) as (st2 & E2 & P2).
      destruct (built rl msg m) as [p|e].
      * erewrite parse_step_point by eassumption.
        destruct (IH (points ++ [p]) st2) as (st3 & E3 & P3).
        exists st3; split; [exact E3|].
        eapply printed_trans; [exact P1|eapply printed_trans; eauto].
      * erewrite parse_step_failed by eassumption.
        destruct (IH points (print (failed_point_line e st2) st2))
          as (st3 & E3 & P3).
        exists st3; split; [exact E3|].
        eapply printed_trans; [exact P1|].
        eapply printed_trans; [exact P2|].
        eapply printed_trans; [apply printed_print|exact P3].
    + erewrite parse_step_no_match by eassumption.
      destruct (IH points st1) as (st3 & E3 & P3).
      exists st3; split; [exact E3|eapply printed_trans; eauto].
    + erewrite parse_step_raise by eassumption. now exists st1.
Qed.

Lemma parse_message_parsed (msg : value) (st : app) :
  exists st',
    parse_message msg st = (parsed (rules st) msg [], st') /\ printed st st'.
Proof. apply parse_message_loop_parsed. Qed.

Lemma parsed_has_fields (rs : list rule) (msg : value)
  (points points' : list point) :
  parsed rs msg points = Ok points' ->
  Forall has_fields points -> Forall has_fields points'.
Proof.
  revert points; induction rs as [|rl rs IH]; intros points; simpl.
  - now intros [= ->].
  - destruct (checked msg (match_key rl) (match_regex rl)) as [[m|]|e];
      [|apply IH|discriminate].
    destruct (built rl msg m) as [p|e] eqn:E; [|apply IH].
    intros H F. apply (IH _ H). apply Forall_app; split; [exact F|].
    constructor; [|constructor]. now apply built_fields in E.
Qed.

Lemma parsed_no_timestamp (rs : list rule) (d : dict)
  (points points' : list point) :
  dict_get d (u "@timestamp") = None ->
  parsed rs (VDict d) points = Ok points' -> points' = points.
Proof.
  intros Ht. revert points; induction rs as [|rl rs IH]; intros points; simpl.
  - now intros [= ->].
  - destruct (checked (VDict d) (match_key rl) (match_regex rl))
      as [[m|]|e]; [|apply IH|discriminate].
    unfold built, subscript. rewrite Ht. apply IH.
Qed.

End Points.

(** ** The listener *)

Lemma evolves_refl (st : app) : evolves 0 st st.
Proof.
  unfold evolves. split; [reflexivity|]. split; [reflexivity|].
  split; [now rewrite Z.add_0_r|]. split; [auto|].
  split; exists []; now rewrite app_nil_r.
Qed.

Lemma evolves_trans (n1 n2 : Z) (st1 st2 st3 : app) :
  evolves n1 st1 st2 -> evolves n2 st2 st3 -> evolves (n1 + n2) st1 st3.
Proof.
  intros (R1 & D1 & I1 & L1 & (o1 & O1) & (b1 & B1 & F1))
         (R2 & D2 & I2 & L2 & (o2 & O2) & (b2 & B2 & F2)).
  unfold evolves. split; [congruence|]. split; [congruence|].
  split; [rewrite I2, I1; lia|]. split; [auto|]. split.
  - exists (o1 ++ o2). now rewrite O2, O1, app_assoc.
  - exists (b1 ++ b2). rewrite B2, B1, app_assoc. split; [reflexivity|].
    apply Forall_app; now split.
Qed.

Lemma evolves_trans0 (st1 st2 st3 : app) :
  evolves 0 st1 st2 -> evolves 0 st2 st3 -> evolves 0 st1 st3.
Proof. intros H1 H2. exact (evolves_trans 0 0 st1 st2 st3 H1 H2). Qed.

Lemma printed_evolves (st st' : app) : printed st st' -> evolves 0 st st'.
Proof.
  intros [o ->]. unfold evolves; simpl.
  split; [reflexivity|]. split; [reflexivity|].
  split; [now rewrite Z.add_0_r|]. split; [auto|].
  split; [now exists o|]. exists []; now rewrite app_nil_r.
Qed.

Section Listener.
Context {rt : Runtime}.

Lemma load_message_committed (l : loader) (raw : bytes) (st : app) :
  message_loader st = Some l ->
  load_message raw st = (run_loader l raw, st).
Proof.
  intros H. unfold load_message. rewrite H, bind_ret.
  unfold call_message_loader. now rewrite H.
Qed.

Lemma load_message_first (raw : bytes) (st : app) :
  message_loader st = None ->
  load_message raw st =
  match load_message_json raw with
  | Ok v => (Ok v, print json_line (with_loader LoaderJson st))
  | Raise e =>
      if is_ValueError e
      then (load_message_legacy raw,
            with_loader LoaderLegacy (print legacy_line st))
      else (Raise e, st)
  end.
Proof.
  intros H. unfold load_message. rewrite H, bind_eq.
  unfold try_except. rewrite bind_eq. unfold lift at 1.
  destruct (load_message_json raw) as [v|e] eqn:E.
  - unfold call_message_loader. simpl. now rewrite E.
  - destruct (is_ValueError e); [|reflexivity]. reflexivity.
Qed.

Lemma load_message_evolves (raw : bytes) (st : app) :
  evolves 0 st (snd (load_message raw st)).
Proof.
  destruct (message_loader st) as [l|] eqn:L.
  - rewrite (load_message_committed l raw st L). apply evolves_refl.
  - rewrite (load_message_first raw st L).
    assert (forall o l, evolves 0 st (print o (with_loader l st))) as Hev.
    { intros o l. unfold evolves; simpl.
      split; [reflexivity|]. split; [reflexivity|].
      split; [now rewrite Z.add_0_r|].
      split; [intros l0; rewrite L; discriminate|].
      split; [now exists [o]|]. exists []; now rewrite app_nil_r. }
    destruct (load_message_json raw) as [v|e]; [apply Hev|].
    destruct (is_ValueError e); [apply Hev|apply evolves_refl].
Qed.

Lemma log_points_printed (points : list point) (st : app) :
  printed st (snd (log_points points st)).
Proof.
  revert st; induction points as [|p points IH]; intros st; simpl.
  - apply printed_refl.
  - rewrite bind_eq.
    destruct (py_format (point_line p) []) as [s|e] eqn:E.
    + erewrite app_log_ok by exact E.
      eapply printed_trans; [apply printed_print|apply IH].
    + erewrite app_log_raise by exact E. apply printed_refl.
Qed.

Lemma app_log_caught (e : exn) (st : app) :
  app_log (u "Caught exception handling message") [] (Some e) st =
  (Ok tt, caught e st).
Proof.
  rewrite app_log_eq. unfold log.
  rewrite py_format_plain by apply msg_prefix_brace_free. reflexivity.
Qed.

Lemma caught_evolves (e : exn) (st : app) : evolves 0 st (caught e st).
Proof.
  apply printed_evolves. exists [Traceback e;
    Line (msg_prefix st ++ u "Caught exception handling message")].
  unfold caught, print; simpl. now rewrite <- app_assoc.
Qed.

Lemma send_points_eq (points : list point) (st : app) :
  send_points points st =
  match log_points points st with
  | (Ok _, st') =>
      if is_nil points then (Ok tt, st') else client_write_points points st'
  | (Raise e, st') => (Raise e, st')
  end.
Proof.
  unfold send_points. rewrite bind_eq.
  destruct (log_points points st) as [[[]|e] st']; [|reflexivity].
  now destruct (is_nil points).
Qed.

Lemma send_points_evolves (points : list point) (st : app) :
  Forall has_fields points -> evolves 0 st (snd (send_points points st)).
Proof.
  intros F. rewrite send_points_eq.
  pose proof (log_points_printed points st) as P.
  destruct (log_points points st) as [[[]|e] st1]; simpl in P;
    [|now apply printed_evolves].
  destruct (is_nil points) eqn:N; [now apply printed_evolves|].
  apply (evolves_trans0 st st1); [now apply printed_evolves|].
  assert (evolves 0 st1 (with_call points st1)) as Hev.
  { unfold evolves; simpl.
    split; [reflexivity|]. split; [reflexivity|].
    split; [now rewrite Z.add_0_r|]. split; [auto|].
    split; [exists []; now rewrite app_nil_r|].
    exists [points]; split; [reflexivity|].
    constructor; [now split|constructor]. }
  unfold client_write_points.
  destruct (write_points (client_calls st1) points); exact Hev.
Qed.

(** [handle_body], step by step. *)
Lemma handle_body_eq (raw : bytes) (st : app) :
  handle_body raw st =
  match load_message raw st with
  | (Raise e, st1) => (Raise e, st1)
  | (Ok msg, st1) =>
      if truthy msg then
        match parse_message msg st1 with
        | (Raise e, st2) => (Raise e, st2)
        | (Ok points, st2) => send_points points st2
        end
      else (Ok tt, st1)
  end.
Proof.
  unfold handle_body. rewrite bind_eq.
  destruct (load_message raw st) as [[msg|e] st1]; [|reflexivity].
  destruct (truthy msg); [|reflexivity]. simpl. now rewrite bind_eq.
Qed.

Lemma handle_body_evolves (raw : bytes) (st : app) :
  evolves 0 st (snd (handle_body raw st)).
Proof.
  rewrite handle_body_eq.
  pose proof (load_message_evolves raw st) as E1.
  destruct (load_message raw st) as [[msg|e] st1]; simpl in E1; [|exact E1].
  destruct (truthy msg); [|exact E1].
  destruct (parse_message_parsed msg st1) as (st2 & E2 & P2). rewrite E2.
  apply (evolves_trans0 st st1); [exact E1|].
  apply (evolves_trans0 st1 st2); [now apply printed_evolves|].
  destruct (parsed (rules st1) msg []) as [points|e] eqn:Ep;
    [|apply evolves_refl].
  apply send_points_evolves.
  apply (parsed_has_fields (rules st1) msg [] points Ep). constructor.
Qed.

Lemma received_evolves (raw : bytes) (st : app) :
  evolves 1 st (received raw st).
Proof.
  unfold received, evolves. destruct (debug st) eqn:D; simpl;
    (split; [reflexivity|]); (split; [now rewrite D|]);
    (split; [reflexivity|]); (split; [auto|]).
  - split; [now eexists|]. exists []; now rewrite app_nil_r.
  - split; exists []; now rewrite app_nil_r.
Qed.

(** [handle] is its body run from [received], and the handler on an
    exception. *)
Lemma handle_eq (raw : bytes) (st : app) :
  handle raw st =
  match handle_body raw (received raw st) with
  | (Ok _, st') => (Ok tt, st')
  | (Raise e, st') => (Ok tt, caught e st')
  end.
Proof.
  unfold handle. rewrite bind_eq. unfold modify at 1. rewrite bind_eq.
  assert (app_debug (u "received message: {}") [bytes_str raw]
            (with_message_id (message_id st + 1) st)
          = (Ok tt, received raw st)) as ->.
  { unfold app_debug, received. simpl debug.
    destruct (debug st); [|reflexivity].
    erewrite app_log_ok by reflexivity. now rewrite app_nil_r. }
  unfold try_except.
  destruct (handle_body raw (received raw st)) as [[[]|e] st'];
    [reflexivity|].
  simpl is_Exception. cbv iota. apply app_log_caught.
Qed.

Lemma handle_ok (raw : bytes) (st : app) : fst (handle raw st) = Ok tt.
Proof.
  rewrite handle_eq.
  now destruct (handle_body raw (received raw st)) as [[[]|e] st'].
Qed.

Lemma handle_evolves (raw : bytes) (st : app) :
  evolves 1 st (snd (handle raw st)).
Proof.
  rewrite handle_eq.
  pose proof (handle_body_evolves raw (received raw st)) as E.
  pose proof (received_evolves raw st) as R.
  destruct (handle_body raw (received raw st)) as [[[]|e] st']; simpl in *.
  - exact (evolves_trans 1 0 _ _ _ R E).
  - apply (evolves_trans 1 0 st st' (caught e st'));
      [exact (evolves_trans 1 0 _ _ _ R E)|apply caught_evolves].
Qed.

Lemma serve_forever_cons (raw : bytes) (rest : list bytes) (st : app) :
  serve_forever (raw :: rest) st = serve_forever rest (snd (handle raw st)).
Proof.
  simpl. rewrite bind_eq. pose proof (handle_ok raw st) as H.
  destruct (handle raw st) as [[[]|e] st']; [reflexivity|discriminate].
Qed.

Lemma serve_forever_ok (datagrams : list bytes) (st : app) :
  fst (serve_forever datagrams st) = Ok tt.
Proof.
  revert st; induction datagrams as [|raw rest IH]; intros st;
    [reflexivity|].
  rewrite serve_forever_cons. apply IH.
Qed.

Lemma serve_forever_evolves (datagrams : list bytes) (st : app) :
  evolves (Z.of_nat (List.length datagrams)) st
    (snd (serve_forever datagrams st)).
Proof.
  revert st; induction datagrams as [|raw rest IH]; intros st.
  - apply evolves_refl.
  - rewrite serve_forever_cons.
    replace (Z.of_nat (List.length (raw :: rest)))
      with (1 + Z.of_nat (List.length rest))%Z by (simpl List.length; lia).
    exact (evolves_trans _ _ _ _ _ (handle_evolves raw st) (IH _)).
Qed.

Lemma serve_forever_app (first rest : list bytes) (st : app) :
  serve_forever (first ++ rest) st =
  serve_forever rest (snd (serve_forever first st)).
Proof.
  revert st; induction first as [|raw first IH]; intros st; [reflexivity|].
  rewrite <- app_comm_cons, !serve_forever_cons. apply IH.
Qed.

End Listener.

(** * The claims *)

Section CrossField.
Context {rt : Runtime}.

Lemma split_once_contains (c : N) (s : pystr) (p : pystr * pystr) :
  split_once [c] s = Some p -> contains c s = true.
Proof.
  revert p; induction s as [|x s IH]; intros p; simpl; [discriminate|].
  destruct (c =? x) eqn:E; [reflexivity|].
  destruct (split_once [c] s) as [[a' z']|]; [|discriminate].
  intros _. simpl. exact (IH (a', z') eq_refl).
Qed.

Lemma collected_raises (rl : rule) (msg : value) (m : Match)
  (items : list (pystr * lookup)) (k : pystr) (l : lookup) (e : exn)
  (r0 : dict) :
  In (k, l) items -> resolved rl msg m l = Raise e ->
  exists e', collected rl msg m items r0 = Raise e'.
Proof.
  intros Hin He. revert r0; induction items as [|[k0 l0] items IH];
    intros r0; [destruct Hin|]. simpl.
  destruct (resolved rl msg m l0) as [v0|e0] eqn:E0; [|now exists e0].
  destruct Hin as [[= -> ->]|Hin]; [congruence|]. now apply IH.
Qed.

(** A rule with a lookup that raises makes no point. *)
Lemma built_raises (rl : rule) (msg : value) (m : Match) (k : pystr)
  (l : lookup) (e : exn) :
  (exists fl, fields rl = Some fl /\ In (k, l) fl) \/
  (exists tl, tags rl = Some tl /\ In (k, l) tl) ->
  resolved rl msg m l = Raise e ->
  exists e', built rl msg m = Raise e'.
Proof.
  intros Hin He. unfold built.
  destruct (subscript msg (u "@timestamp")) as [t|e0]; [|now exists e0].
  destruct Hin as [(fl & Hf & Hin)|(tl & Ht & Hin)].
  - unfold lookup_items, rule_get. rewrite Hf.
    destruct (collected_raises rl msg m fl k l e [] Hin He) as [e' ->].
    now exists e'.
  - destruct (collected rl msg m _ []) as [fs|e0]; [|now exists e0].
    destruct (is_nil fs); [eexists; reflexivity|].
    unfold lookup_items, rule_get. rewrite Ht.
    destruct (collected_raises rl msg m tl k l e [] Hin He) as [e' ->].
    now exists e'.
Qed.

(** C3: a lookup [field.group] whose [field] is not the rule's match key
    raises, printing nothing and resolving to no value; a rule that has it
    among its fields or tags makes no point once it has matched:
    [make_point] raises, [parse_message] prints the failure and goes on
    with the points it had. *)
Theorem cross_field_lookup_fails (rl : rule) (msg : value) (m : Match)
  (l : lookup) (field group : pystr) :
  split_once [46] (lookup_ref l) = Some (field, group) ->
  field <> match_key rl ->
  (forall st : app,
     exists e, rule_value_lookup rl msg m l st = (Raise e, st)) /\
  (forall (k : pystr) (rs : list rule) (points : list point)
          (st st1 : app),
     (exists fl, fields rl = Some fl /\ In (k, l) fl) \/
     (exists tl, tags rl = Some tl /\ In (k, l) tl) ->
     check_re msg (match_key rl) (match_regex rl) st = (Ok (Some m), st1) ->
     exists e st2,
       make_point rl msg m st1 = (Raise e, st2) /\
       parse_message_loop (rl :: rs) msg points st =
       parse_message_loop rs msg points
         (print (failed_point_line e st2) st2)).
Proof.
  intros Hsplit Hne.
  assert (Href : reference_value rl msg m (lookup_ref l) = Raise TypeError).
  { unfold reference_value, rule_value_match_lookup.
    rewrite (split_once_contains 46 _ _ Hsplit), Hsplit.
    now rewrite (str_eqb_neq _ _ Hne). }
  assert (Hres : exists e, resolved rl msg m l = Raise e).
  { unfold resolved. rewrite Href.
    destruct (lookup_coercion l) as [ty|]; [|now exists TypeError].
    destruct (assoc TYPE_MAP ty); eexists; reflexivity. }
  split.
  - intros st. pose proof (rule_value_lookup_cases rl msg m l st) as H.
    rewrite Href in H. cbv beta iota delta [is_KeyError] in H.
    destruct (lookup_coercion l) as [ty|]; [|now exists TypeError].
    destruct (assoc TYPE_MAP ty); eexists; exact H.
  - intros k rs points st st1 Hin Hc. destruct Hres as [e He].
    destruct (built_raises rl msg m k l e Hin He) as [e' Hb].
    destruct (make_point_built rl msg m st1) as (st2 & E2 & _).
    rewrite Hb in E2. exists e', st2. split; [exact E2|].
    now apply (parse_step_failed rl rs msg points m e' st st1 st2).
Qed.

End CrossField.

Section FalsyValues.
Context {rt : Runtime}.

(** C4: the map [get_fields_tags] returns holds a key only with a truthy
    value, the one a lookup of that key resolved to; a key whose lookups
    resolve to falsy values is not in the map; and the map is the one the
    rule would give without a lookup that resolves to a falsy value. *)
Theorem falsy_values_are_dropped (lt : lookup_type) (rl : rule)
  (msg : value) (m : Match) (default : option (list (pystr * lookup)))
  (st st' : app) (r : dict) :
  get_fields_tags lt rl msg m default st = (Ok r, st') ->
  (forall (k : pystr) (v : value),
     dict_get r k = Some v ->
     truthy v = true /\
     exists l, In (k, l) (lookup_items lt rl default) /\
               fst (rule_value_lookup rl msg m l st) = Ok v) /\
  (forall k : pystr,
     (forall (l : lookup) (v : value),
        In (k, l) (lookup_items lt rl default) ->
        fst (rule_value_lookup rl msg m l st) = Ok v -> truthy v = false) ->
     dict_get r k = None) /\
  (forall (before after : list (pystr * lookup)) (k : pystr) (l : lookup)
          (v : value),
     lookup_items lt rl default = before ++ (k, l) :: after ->
     fst (rule_value_lookup rl msg m l st) = Ok v -> truthy v = false ->
     fst (get_fields_tags_loop rl msg m (before ++ after) [] st) = Ok r).
Proof.
  intros H.
  destruct (get_fields_tags_collected lt rl msg m default st)
    as (st1 & E & _).
  rewrite H in E. injection E as E _. symmetry in E.
  split; [|split].
  - intros k v Hk.
    destruct (collected_truthy rl msg m _ [] r E k v Hk)
      as [Hn|(Ht & l & Hin & Hr)]; [discriminate|].
    split; [exact Ht|]. exists l; split; [exact Hin|].
    now rewrite rule_value_lookup_fst.
  - intros k Hf. apply (collected_skips rl msg m _ [] r k E); [reflexivity|].
    intros l v Hin Hr. apply (Hf l v Hin). now rewrite rule_value_lookup_fst.
  - intros before after k l v Hi Hr Ht.
    rewrite rule_value_lookup_fst in Hr.
    destruct (get_fields_tags_loop_collected rl msg m (before ++ after) [] st)
      as (st2 & E2 & _).
    rewrite E2. simpl.
    rewrite <- (collected_without rl msg m before after k l v [] Hr Ht).
    now rewrite <- Hi.
Qed.

End FalsyValues.

Section EmptyFields.
Context {rt : Runtime}.

Lemma serve_forever_good_batches (datagrams : list bytes) (st : app) :
  Forall good_batch (client_calls st) ->
  Forall good_batch (client_calls (snd (serve_forever datagrams st))).
Proof.
  intros H.
  destruct (serve_forever_evolves datagrams st)
    as (_ & _ & _ & _ & _ & bs & -> & F).
  apply Forall_app; now split.
Qed.

(** C5: when a rule has matched and its fields resolve to the empty map,
    [make_point] fails on its assertion, [parse_message] prints the failure
    and goes on with the other rules and the points it had; every point
    [make_point] returns has a field; [handle] raises nothing; and the
    client only ever receives batches of points that have a field. *)
Theorem empty_fields_point_is_abandoned (rl : rule) (rs : list rule)
  (msg t : value) (m : Match) (points : list point) (st st1 st2 : app) :
  check_re msg (match_key rl) (match_regex rl) st = (Ok (Some m), st1) ->
  subscript msg (u "@timestamp") = Ok t ->
  get_fields_tags Fields rl msg m (Some default_fields) st1 = (Ok [], st2) ->
  make_point rl msg m st1 =
    (Raise (AssertionError (u "Unable to populate field values")), st2) /\
  parse_message_loop (rl :: rs) msg points st =
    parse_message_loop rs msg points
      (print (failed_point_line
                (AssertionError (u "Unable to populate field values")) st2)
         st2) /\
  (forall (rl' : rule) (msg' : value) (m' : Match) (p : point)
          (st3 st4 : app),
     make_point rl' msg' m' st3 = (Ok p, st4) -> has_fields p) /\
  (forall (raw : bytes) (st0 : app), fst (handle raw st0) = Ok tt) /\
  (forall (datagrams : list bytes) (st0 : app),
     Forall good_batch (client_calls st0) ->
     Forall good_batch (client_calls (snd (serve_forever datagrams st0)))).
Proof.
  intros Hc Ht Hf.
  assert (Hm : make_point rl msg m st1 =
    (Raise (AssertionError (u "Unable to populate field values")), st2)).
  { unfold make_point. rewrite bind_eq. unfold lift at 1. rewrite Ht.
    rewrite bind_eq. unfold default_fields in Hf. now rewrite Hf. }
  split; [exact Hm|].
  split; [now apply (parse_step_failed rl rs msg points m _ st st1 st2)|].
  split.
  { intros rl' msg' m' p st3 st4 H.
    destruct (make_point_built rl' msg' m' st3) as (st5 & E & _).
    rewrite H in E. injection E as E _. symmetry in E.
    now apply built_fields in E. }
  split; [apply handle_ok|apply serve_forever_good_batches].
Qed.

End EmptyFields.

Section MissingTimestamp.
Context {rt : Runtime}.

(** C9: for a message without the key [@timestamp], [make_point] raises
    the [KeyError] at once, leaving the state as it was; for each rule that
    matches, [parse_message] prints the failure and goes on with the points
    it had, so that it returns no point for the message; and [handle]
    raises nothing. *)
Theorem missing_timestamp_makes_no_point (d : dict) :
  dict_get d (u "@timestamp") = None ->
  (forall (rl : rule) (m : Match) (st : app),
     make_point rl (VDict d) m st =
     (Raise (KeyError (u "@timestamp")), st)) /\
  (forall (rl : rule) (rs : list rule) (m : Match) (points : list point)
          (st st1 : app),
     check_re (VDict d) (match_key rl) (match_regex rl) st
       = (Ok (Some m), st1) ->
     parse_message_loop (rl :: rs) (VDict d) points st =
     parse_message_loop rs (VDict d) points
       (print (failed_point_line (KeyError (u "@timestamp")) st1) st1)) /\
  (forall (st st' : app) (points : list point),
     parse_message (VDict d) st = (Ok points, st') -> points = []) /\
  (forall (raw : bytes) (st : app), fst (handle raw st) = Ok tt).
Proof.
  intros Ht.
  split; [intros; now apply make_point_no_timestamp|].
  split.
  { intros rl rs m points st st1 Hc.
    apply (parse_step_failed rl rs (VDict d) points m _ st st1 st1 Hc).
    now apply make_point_no_timestamp. }
  split; [|apply handle_ok].
  intros st st' points H.
  destruct (parse_message_parsed (VDict d) st) as (st1 & E & _).
  rewrite H in E. injection E as E _. symmetry in E.
  exact (parsed_no_timestamp (rules st) d [] points Ht E).
Qed.

End MissingTimestamp.

(** ** The scenarios *)

Section Scenarios.
Context {rt : Runtime}.

(** A rule with a lookup that raises makes no point: the failure is printed
    and the loop goes on. *)
Lemma raising_lookup_abandons_point (rl : rule) (rs : list rule)
  (msg : value) (m : Match) (k : pystr) (l : lookup) (e : exn)
  (points : list point) (st st1 : app) :
  (exists fl, fields rl = Some fl /\ In (k, l) fl) \/
  (exists tl, tags rl = Some tl /\ In (k, l) tl) ->
  check_re msg (match_key rl) (match_regex rl) st = (Ok (Some m), st1) ->
  fst (rule_value_lookup rl msg m l st1) = Raise e ->
  exists e' st2,
    make_point rl msg m st1 = (Raise e', st2) /\
    parse_message_loop (rl :: rs) msg points st =
    parse_message_loop rs msg points (print (failed_point_line e' st2) st2).
Proof.
  intros Hin Hc He. rewrite rule_value_lookup_fst in He.
  destruct (built_raises rl msg m k l e Hin He) as [e' Hb].
  destruct (make_point_built rl msg m st1) as (st2 & E2 & _).
  rewrite Hb in E2. exists e', st2. split; [exact E2|].
  now apply (parse_step_failed rl rs msg points m e' st st1 st2).
Qed.

(** C7, with the coercion type written [int], the key [TYPE_MAP] has for
    it: the message of scenario B and the rule on [level] with the lookup
    [{lookup: latency_ms, type: int}] give one point, whose field
    [latency_ms] is the integer 120.  In general a lookup with the type
    [int] or [float] applies [int] or [float] to a truthy value and leaves
    a falsy one alone; a lookup with any other type raises the [KeyError]
    of that type, whatever its reference; and when a lookup of a matched
    rule raises, for its type, in the coercion or elsewhere,
    [parse_message] prints the failure and goes on with the points it
    had. *)
Theorem integer_coercion_of_compound_lookup (m : Match) (st : app) :
  re_match (u "^warn$") (u "warn") = Some m ->
  rules st = [rule_B (u "int")] ->
  parse_message message_B st = (Ok [point_B], st) /\
  (forall (rl : rule) (msg : value) (m' : Match) (ref : pystr) (v : value)
          (st' : app),
     reference_value rl msg m' ref = Ok v ->
     rule_value_lookup rl msg m' (LDict (Some (u "int")) ref) st' =
       ((if truthy v then py_int v else Ok v), st') /\
     rule_value_lookup rl msg m' (LDict (Some (u "float")) ref) st' =
       ((if truthy v then py_float v else Ok v), st')) /\
  (forall (rl : rule) (msg : value) (m' : Match) (ty ref : pystr)
          (st' : app),
     ty <> u "int" -> ty <> u "float" ->
     rule_value_lookup rl msg m' (LDict (Some ty) ref) st' =
       (Raise (KeyError ty), st')) /\
  (forall (rl : rule) (rs : list rule) (msg : value) (m' : Match)
          (k : pystr) (l : lookup) (e : exn) (points : list point)
          (st0 st1 : app),
     (exists fl, fields rl = Some fl /\ In (k, l) fl) \/
     (exists tl, tags rl = Some tl /\ In (k, l) tl) ->
     check_re msg (match_key rl) (match_regex rl) st0 = (Ok (Some m'), st1) ->
     fst (rule_value_lookup rl msg m' l st1) = Raise e ->
     exists e' st2,
       make_point rl msg m' st1 = (Raise e', st2) /\
       parse_message_loop (rl :: rs) msg points st0 =
       parse_message_loop rs msg points
         (print (failed_point_line e' st2) st2)).
Proof.
  intros Hm Hr. split; [|split; [|split]].
  - unfold parse_message. rewrite Hr.
    assert (Hc : check_re message_B (match_key (rule_B (u "int")))
                   (match_regex (rule_B (u "int"))) st = (Ok (Some m), st)).
    { unfold message_B. rewrite check_re_dict.
      change (dict_get _ (match_key (rule_B (u "int"))))
        with (Some (VStr (u "warn"))).
      cbv iota. change (strip (u "warn")) with (u "warn").
      change (match_regex (rule_B (u "int"))) with (u "^warn$").
      now rewrite Hm. }
    rewrite (parse_step_point (rule_B (u "int")) [] message_B [] m point_B
               st st st Hc); reflexivity.
  - intros rl msg m' ref v st' Hv. split.
    + pose proof (rule_value_lookup_cases rl msg m'
                    (LDict (Some (u "int")) ref) st') as H.
      cbv beta iota delta [lookup_coercion lookup_ref] in H.
      change (assoc TYPE_MAP (u "int")) with (Some py_int) in H.
      cbv iota in H. now rewrite Hv in H.
    + pose proof (rule_value_lookup_cases rl msg m'
                    (LDict (Some (u "float")) ref) st') as H.
      cbv beta iota delta [lookup_coercion lookup_ref] in H.
      change (assoc TYPE_MAP (u "float")) with (Some py_float) in H.
      cbv iota in H. now rewrite Hv in H.
  - intros rl msg m' ty ref st' Hi Hf.
    pose proof (rule_value_lookup_cases rl msg m' (LDict (Some ty) ref) st')
      as H.
    cbv beta iota delta [lookup_coercion lookup_ref] in H.
    assert (assoc TYPE_MAP ty = None) as Hn.
    { unfold TYPE_MAP. cbn [assoc].
      rewrite (str_eqb_neq (u "int") ty), (str_eqb_neq (u "float") ty);
        congruence. }
    now rewrite Hn in H.
  - intros rl rs msg m' k l e points st0 st1.
    apply raising_lookup_abandons_point.
Qed.

(** C8, for the payload of scenario A with a header line for
    [@timestamp]: [load_message_legacy] reads the lines before the empty
    line as [key: value] and keeps the text after it under [message], for
    the payload of the scenario as for the one with the added line; and
    for the latter, the rule on [level] that has no field and no tag
    lookups gives one point, with the only field [value], which holds the
    text, and no tags. *)
Theorem legacy_message_and_default_field (m : Match) (st : app) :
  re_match (u "error") (u "error") = Some m ->
  rules st = [rule_A] ->
  load_message_legacy payload_A = Ok message_A /\
  load_message_legacy payload_A_timestamp = Ok message_A_timestamp /\
  parse_message message_A_timestamp st = (Ok [point_A], st).
Proof.
  intros Hm Hr.
  split; [vm_compute; reflexivity|]. split; [vm_compute; reflexivity|].
  unfold parse_message. rewrite Hr.
  assert (Hc : check_re message_A_timestamp (match_key rule_A)
                 (match_regex rule_A) st = (Ok (Some m), st)).
  { unfold message_A_timestamp. rewrite check_re_dict.
    change (dict_get _ (match_key rule_A)) with (Some (VStr (u "error"))).
    cbv iota. change (strip (u "error")) with (u "error").
    change (match_regex rule_A) with (u "error").
    now rewrite Hm. }
  rewrite (parse_step_point rule_A [] message_A_timestamp [] m point_A
             st st st Hc); reflexivity.
Qed.

End Scenarios.

Section Batches.
Context {rt : Runtime}.

Lemma received_calls (raw : bytes) (st : app) :
  client_calls (received raw st) = client_calls st.
Proof. unfold received. now destruct (debug st). Qed.

Lemma received_rules (raw : bytes) (st : app) :
  rules (received raw st) = rules st.
Proof. unfold received. now destruct (debug st). Qed.

Lemma received_loader (raw : bytes) (st : app) :
  message_loader (received raw st) = message_loader st.
Proof. unfold received. now destruct (debug st). Qed.

Lemma load_message_calls (raw : bytes) (st : app) :
  client_calls (snd (load_message raw st)) = client_calls st.
Proof.
  destruct (message_loader st) as [l|] eqn:L.
  - now rewrite (load_message_committed l raw st L).
  - rewrite (load_message_first raw st L).
    destruct (load_message_json raw) as [v|e]; [reflexivity|].
    now destruct (is_ValueError e).
Qed.

(** A falsy message ends [handle] at once, in the state [load_message]
    left: no rule is tried and the client is not called. *)
Lemma falsy_message_returns_at_once (raw : bytes) (msg : value)
  (st st1 : app) :
  load_message raw (received raw st) = (Ok msg, st1) ->
  truthy msg = false ->
  handle raw st = (Ok tt, st1) /\ client_calls st1 = client_calls st.
Proof.
  intros Hl Hf. rewrite handle_eq, handle_body_eq, Hl, Hf.
  split; [reflexivity|].
  pose proof (load_message_calls raw (received raw st)) as E.
  rewrite Hl in E. simpl in E. now rewrite E, received_calls.
Qed.

(** [send_points] calls the client with the batch when the batch is not
    empty and its lines were printed, and never with an empty batch. *)
Lemma send_points_calls (points : list point) (st : app) :
  client_calls (snd (send_points points st)) =
  match log_points points st with
  | (Ok _, _) =>
      if is_nil points then client_calls st else client_calls st ++ [points]
  | (Raise _, _) => client_calls st
  end.
Proof.
  rewrite send_points_eq.
  pose proof (printed_calls _ _ (log_points_printed points st)) as P.
  destruct (log_points points st) as [[[]|e] st1]; simpl in P;
    [|now rewrite <- P].
  destruct (is_nil points); [now rewrite <- P|].
  unfold client_write_points.
  destruct (write_points (client_calls st1) points); simpl; now rewrite P.
Qed.

(** C10, where it fails: the legacy payload [payload_braces], whose text
    holds braces, is loaded and matched, and [parse_message] returns one
    point for it; [send_points] makes the line of the point the format
    string of [self.log], whose [format] raises on the braces; [handle]
    catches the exception, and [write_points] is not called. *)
Theorem braces_in_a_value_stop_the_write (m : Match) (st : app) :
  re_match (u "error") (u "error") = Some m ->
  rules st = [rule_A] ->
  message_loader st = Some LoaderLegacy ->
  load_message payload_braces (received payload_braces st) =
    (Ok message_braces, received payload_braces st) /\
  parse_message message_braces (received payload_braces st) =
    (Ok [point_braces], received payload_braces st) /\
  send_points [point_braces] (received payload_braces st) =
    (Raise FormatError, received payload_braces st) /\
  handle payload_braces st =
    (Ok tt, caught FormatError (received payload_braces st)) /\
  client_calls (snd (handle payload_braces st)) = client_calls st.
Proof.
  intros Hm Hr Hl. set (st0 := received payload_braces st).
  assert (H1 : load_message payload_braces st0 = (Ok message_braces, st0)).
  { rewrite (load_message_committed LoaderLegacy)
      by (unfold st0; now rewrite received_loader).
    assert (run_loader LoaderLegacy payload_braces = Ok message_braces)
      as -> by (vm_compute; reflexivity).
    reflexivity. }
  assert (H2 : parse_message message_braces st0 = (Ok [point_braces], st0)).
  { unfold parse_message, st0. rewrite received_rules, Hr. fold st0.
    assert (Hc : check_re message_braces (match_key rule_A)
                   (match_regex rule_A) st0 = (Ok (Some m), st0)).
    { unfold message_braces. rewrite check_re_dict.
      change (dict_get _ (match_key rule_A)) with (Some (VStr (u "error"))).
      cbv iota. change (strip (u "error")) with (u "error").
      change (match_regex rule_A) with (u "error").
      now rewrite Hm. }
    rewrite (parse_step_point rule_A [] message_braces [] m point_braces
               st0 st0 st0 Hc); reflexivity. }
  assert (H3 : send_points [point_braces] st0 = (Raise FormatError, st0)).
  { rewrite send_points_eq. simpl log_points. rewrite bind_eq.
    rewrite (app_log_raise (point_line point_braces) [] FormatError st0)
      by (vm_compute; reflexivity).
    reflexivity. }
  assert (H4 : handle payload_braces st = (Ok tt, caught FormatError st0)).
  { rewrite handle_eq, handle_body_eq. fold st0. rewrite H1.
    change (truthy message_braces) with true. cbv iota.
    now rewrite H2, H3. }
  repeat (split; [assumption|]).
  rewrite H4. simpl. unfold st0. apply received_calls.
Qed.

End Batches.

(** * Runs on [demo_runtime] *)

(** C7 as the scenario writes it, with the type [integer]: [TYPE_MAP] has
    no such key, [make_point] raises the [KeyError], and the message gives
    no point and no call to the client. *)
Lemma scenario_B_type_integer_makes_no_point :
  @make_point demo_runtime (rule_B (u "integer")) message_B no_groups
    (fresh [rule_B (u "integer")] None)
  = (Raise (KeyError (u "integer")), fresh [rule_B (u "integer")] None) /\
  fst (@parse_message demo_runtime message_B
         (fresh [rule_B (u "integer")] None)) = Ok [] /\
  @load_message_json demo_runtime payload_B = Ok message_B /\
  client_calls (snd (@handle demo_runtime payload_B
                       (fresh [rule_B (u "integer")] None))) = [].
Proof. repeat split; vm_compute; reflexivity. Qed.

(** C8 as the scenario writes it: the message of the payload has no
    [@timestamp], and the rule gives no point for it. *)
Lemma scenario_A_makes_no_point :
  load_message_legacy payload_A = Ok message_A /\
  @make_point demo_runtime rule_A message_A no_groups (fresh [rule_A] None)
  = (Raise (KeyError (u "@timestamp")), fresh [rule_A] None) /\
  fst (@parse_message demo_runtime message_A (fresh [rule_A] None)) = Ok [] /\
  client_calls (snd (@handle demo_runtime payload_A (fresh [rule_A] None)))
  = [].
Proof. repeat split; vm_compute; reflexivity. Qed.

(** The JSON payloads [{}] and [null] give a falsy message: [handle]
    commits the loader and returns, without a line for a rule and without
    a call to the client. *)
Example falsy_payloads :
  snd (@handle demo_runtime (bytes_of "{}") (fresh [rule_A] None))
  = print json_line
      (with_loader LoaderJson (with_message_id 1 (fresh [rule_A] None))) /\
  snd (@handle demo_runtime (bytes_of "null") (fresh [rule_A] None))
  = print json_line
      (with_loader LoaderJson (with_message_id 1 (fresh [rule_A] None))).
Proof. split; vm_compute; reflexivity. Qed.

(** Scenario D: the first [write_points] raises; the first datagram is
    printed as failed, and the second is handled and its batch passed to
    the client. *)
Example scenario_D :
  let st := snd (@serve_forever flaky_runtime [payload_B; payload_B]
                   (fresh [rule_B (u "int")] None)) in
  @write_points flaky_runtime [] [point_B]
    = Some (OtherError (u "ConnectionError")) /\
  @write_points flaky_runtime [[point_B]] [point_B] = None /\
  client_calls st = [[point_B]; [point_B]] /\
  message_id st = 2%Z /\
  stderr st =
    [ json_line;
      Line (u "[msg 1]: latency latency_ms=120i 2024-01-01T00:00:00Z");
      Traceback (OtherError (u "ConnectionError"));
      Line (u "[msg 1]: Caught exception handling message");
      Line (u "[msg 2]: latency latency_ms=120i 2024-01-01T00:00:00Z") ].
Proof. repeat split; vm_compute; reflexivity. Qed.

Lemma cross_field_lookup_fails_witness :
  split_once [46] (lookup_ref (LStr (u "host.code")))
    = Some (u "host", u "code") /\
  u "host" <> match_key rule_cross /\
  exists e,
    @rule_value_lookup demo_runtime rule_cross message_A_timestamp no_groups
      (LStr (u "host.code")) (fresh [rule_cross] None)
    = (Raise e, fresh [rule_cross] None).
Proof.
  assert (H : u "host" <> match_key rule_cross) by discriminate.
  split; [reflexivity|]. split; [exact H|].
  exact (proj1
    (@cross_field_lookup_fails demo_runtime rule_cross message_A_timestamp
       no_groups (LStr (u "host.code")) (u "host") (u "code") eq_refl H)
    (fresh [rule_cross] None)).
Defined.

Lemma falsy_values_are_dropped_witness :
  @get_fields_tags demo_runtime Fields rule_two_fields message_empty_value
    no_groups None (fresh [rule_two_fields] None)
  = (Ok [(u "b", VStr (u "db1"))], fresh [rule_two_fields] None) /\
  fst (@get_fields_tags_loop demo_runtime rule_two_fields message_empty_value
         no_groups ([] ++ [(u "b", LStr (u "host"))]) []
         (fresh [rule_two_fields] None))
  = Ok [(u "b", VStr (u "db1"))].
Proof.
  split; [reflexivity|].
  exact (proj2 (proj2
    (@falsy_values_are_dropped demo_runtime Fields rule_two_fields
       message_empty_value no_groups None (fresh [rule_two_fields] None)
       (fresh [rule_two_fields] None) [(u "b", VStr (u "db1"))] eq_refl))
    [] [(u "b", LStr (u "host"))] (u "a") (LStr (u "empty")) (VStr [])
    eq_refl eq_refl eq_refl).
Defined.

Lemma empty_fields_point_is_abandoned_witness :
  @check_re demo_runtime message_A_timestamp (match_key rule_no_value)
    (match_regex rule_no_value) (fresh [rule_no_value] None)
  = (Ok (Some no_groups), fresh [rule_no_value] None) /\
  @get_fields_tags demo_runtime Fields rule_no_value message_A_timestamp
    no_groups (Some default_fields) (fresh [rule_no_value] None)
  = (Ok [], after_missing_reference) /\
  @make_point demo_runtime rule_no_value message_A_timestamp no_groups
    (fresh [rule_no_value] None)
  = (Raise (AssertionError (u "Unable to populate field values")),
     after_missing_reference).
Proof.
  split; [reflexivity|]. split; [reflexivity|].
  exact (proj1
    (@empty_fields_point_is_abandoned demo_runtime rule_no_value []
       message_A_timestamp (VStr (u "2024-01-01T00:00:00Z")) no_groups []
       (fresh [rule_no_value] None) (fresh [rule_no_value] None)
       after_missing_reference eq_refl eq_refl eq_refl)).
Defined.

Lemma integer_coercion_of_compound_lookup_witness :
  @re_match demo_runtime (u "^warn$") (u "warn") = Some no_groups /\
  @parse_message demo_runtime message_B (fresh [rule_B (u "int")] None)
  = (Ok [point_B], fresh [rule_B (u "int")] None).
Proof.
  split; [reflexivity|].
  exact (proj1
    (@integer_coercion_of_compound_lookup demo_runtime no_groups
       (fresh [rule_B (u "int")] None) eq_refl eq_refl)).
Defined.

Lemma legacy_message_and_default_field_witness :
  @re_match demo_runtime (u "error") (u "error") = Some no_groups /\
  @parse_message demo_runtime message_A_timestamp (fresh [rule_A] None)
  = (Ok [point_A], fresh [rule_A] None).
Proof.
  split; [reflexivity|].
  exact (proj2 (proj2
    (@legacy_message_and_default_field demo_runtime no_groups
       (fresh [rule_A] None) eq_refl eq_refl))).
Defined.

Lemma missing_timestamp_makes_no_point_witness :
  dict_get [ (u "level", VStr (u "error")); (u "host", VStr (u "db1"));
             (u "message", VStr (u "something broke")) ] (u "@timestamp")
  = None /\
  @make_point demo_runtime rule_A message_A no_groups (fresh [rule_A] None)
  = (Raise (KeyError (u "@timestamp")), fresh [rule_A] None).
Proof.
  split; [reflexivity|].
  exact (proj1
    (@missing_timestamp_makes_no_point demo_runtime
       [ (u "level", VStr (u "error")); (u "host", VStr (u "db1"));
         (u "message", VStr (u "something broke")) ] eq_refl)
    rule_A no_groups (fresh [rule_A] None)).
Defined.

Lemma braces_in_a_value_stop_the_write_witness :
  @re_match demo_runtime (u "error") (u "error") = Some no_groups /\
  fst (@parse_message demo_runtime message_braces
         (@received demo_runtime payload_braces
            (fresh [rule_A] (Some LoaderLegacy))))
  = Ok [point_braces] /\
  client_calls
    (snd (@handle demo_runtime payload_braces
            (fresh [rule_A] (Some LoaderLegacy)))) = [].
Proof.
  pose proof (@braces_in_a_value_stop_the_write demo_runtime no_groups
                (fresh [rule_A] (Some LoaderLegacy)) eq_refl eq_refl eq_refl)
    as (_ & H2 & _ & _ & H5).
  split; [reflexivity|]. split; [now rewrite H2|exact H5].
Defined.

(** * Further properties *)

(** ** The legacy loader *)

Section Legacy.

Lemma all_str_set (d : dict) (k : pystr) (s : pystr) :
  all_str d -> all_str (dict_set d k (VStr s)).
Proof.
  intros H k0 v. destruct (list_eq_dec N.eq_dec k0 k) as [->|Hne].
  - rewrite dict_get_set_same. intros [= <-]. now exists s.
  - rewrite dict_get_set_other by exact Hne. apply H.
Qed.

Lemma last_header_acc (lines : list pystr) (k : pystr) (acc : option pystr) :
  last_header lines k acc =
  match last_header lines k None with
  | Some v => Some v
  | None => acc
  end.
Proof.
  revert acc; induction lines as [|line rest IH]; intros acc; simpl;
    [reflexivity|].
  destruct (split_once (u ": ") line) as [[k' v]|]; [|apply IH].
  destruct (str_eqb k' k); [|apply IH].
  rewrite (IH (Some v)).
  now destruct (last_header rest k None).
Qed.

Lemma legacy_headers_raise (r : dict) (lines : list pystr) (e : exn) :
  legacy_headers r lines = Raise e ->
  e = ValueError /\
  exists line, In line (header_lines lines) /\
               split_once (u ": ") line = None.
Proof.
  revert r; induction lines as [|line rest IH]; intros r; simpl;
    [discriminate|].
  destruct (is_nil line); [discriminate|].
  destruct (split_once (u ": ") line) as [[k v]|] eqn:E.
  - intros H. destruct (IH _ H) as (He & l & Hin & Hl).
    split; [exact He|]. exists l; split; [now right|exact Hl].
  - intros [= <-]. split; [reflexivity|]. exists line; split; [now left|].
    exact E.
Qed.

Lemma legacy_headers_ok (r r' : dict) (lines rest : list pystr) :
  legacy_headers r lines = Ok (r', rest) ->
  rest = body_lines lines /\
  (forall line, In line (header_lines lines) ->
                split_once (u ": ") line <> None) /\
  (forall k, dict_get r' k =
             match last_header (header_lines lines) k None with
             | Some v => Some (VStr v)
             | None => dict_get r k
             end) /\
  (all_str r -> all_str r').
Proof.
  revert r; induction lines as [|line lines IH]; intros r; simpl.
  - intros [= <- <-]. split; [reflexivity|].
    split; [intros line []|]. split; [reflexivity|auto].
  - destruct (is_nil line) eqn:N.
    + intros [= <- <-]. split; [reflexivity|].
      split; [intros l []|]. split; [reflexivity|auto].
    + destruct (split_once (u ": ") line) as [[k v]|] eqn:E; [|discriminate].
      intros H. destruct (IH _ H) as (Hb & Hs & Hg & Ha).
      split; [exact Hb|]. split; [|split].
      * intros l [<-|Hin]; [congruence|now apply Hs].
      * intros k0. rewrite Hg. simpl. rewrite E.
        rewrite (last_header_acc _ k0 (if str_eqb k k0 then Some v else None)).
        destruct (last_header (header_lines lines) k0 None); [reflexivity|].
        destruct (str_eqb k k0) eqn:Ek.
        -- apply str_eqb_eq in Ek; subst. apply dict_get_set_same.
        -- apply dict_get_set_other. intros ->.
           now rewrite str_eqb_refl in Ek.
      * intros Hr. apply Ha. now apply all_str_set.
Qed.

Lemma legacy_message_fields (raw : bytes) (msg : value) :
  load_message_legacy raw = Ok msg ->
  exists d, msg = VDict d /\ all_str d.
Proof.
  unfold load_message_legacy.
  destruct (utf8_decode raw) as [s|]; [|discriminate].
  destruct (legacy_headers [] (splitlines s)) as [[r rest]|e] eqn:E;
    [|discriminate].
  intros [= <-]. eexists; split; [reflexivity|].
  destruct (legacy_headers_ok _ _ _ _ E) as (_ & _ & _ & Ha).
  apply all_str_set. apply Ha. intros k v; discriminate.
Qed.

(** X1: a payload the legacy loader accepts gives a dictionary that is
    truthy, holds only strings, and has the key [message]: [handle] never
    takes its early return for it. *)
Theorem legacy_message_shape (raw : bytes) (msg : value) :
  load_message_legacy raw = Ok msg ->
  exists d,
    msg = VDict d /\ truthy msg = true /\
    (forall k v, dict_get d k = Some v -> exists s, v = VStr s) /\
    exists body, dict_get d (u "message") = Some (VStr body).
Proof.
  unfold load_message_legacy.
  destruct (utf8_decode raw) as [s|]; [|discriminate].
  destruct (legacy_headers [] (splitlines s)) as [[r rest]|e] eqn:E;
    [|discriminate].
  intros [= <-]. eexists; split; [reflexivity|].
  split; [simpl; now rewrite dict_set_not_nil|]. split.
  - destruct (legacy_headers_ok _ _ _ _ E) as (_ & _ & _ & Ha).
    apply all_str_set. apply Ha. intros k v; discriminate.
  - eexists. apply dict_get_set_same.
Qed.

(** X2: in the message of a legacy payload, [message] is the text of the
    lines after the first empty line, joined by newlines (the empty string
    when there is none), whatever a header line of that name said; any
    other key holds the value of the last header line with that key, and
    is missing when there is no such line. *)
Theorem legacy_message_lookup (raw : bytes) (s : pystr) (msg : value) :
  utf8_decode raw = Some s ->
  load_message_legacy raw = Ok msg ->
  subscript msg (u "message") =
    Ok (VStr (join [10] (body_lines (splitlines s)))) /\
  (forall k, k <> u "message" ->
     subscript msg k =
     match last_header (header_lines (splitlines s)) k None with
     | Some v => Ok (VStr v)
     | None => Raise (KeyError k)
     end).
Proof.
  intros Hd. unfold load_message_legacy. rewrite Hd.
  destruct (legacy_headers [] (splitlines s)) as [[r rest]|e] eqn:E;
    [|discriminate].
  destruct (legacy_headers_ok _ _ _ _ E) as (-> & _ & Hg & _).
  intros [= <-]. unfold subscript. split.
  - now rewrite dict_get_set_same.
  - intros k Hk. rewrite dict_get_set_other by exact Hk. rewrite Hg.
    now destruct (last_header (header_lines (splitlines s)) k None).
Qed.

(** X3: the legacy loader raises nothing but [ValueError], and raises it
    exactly when the payload is not UTF-8 or a line before the first empty
    line has no [": "]; the lines after the empty line are not looked
    at. *)
Theorem legacy_loader_failure (raw : bytes) :
  (forall e, load_message_legacy raw = Raise e -> e = ValueError) /\
  (load_message_legacy raw = Raise ValueError <->
   utf8_decode raw = None \/
   exists s line,
     utf8_decode raw = Some s /\
     In line (header_lines (splitlines s)) /\
     split_once (u ": ") line = None).
Proof.
  unfold load_message_legacy.
  destruct (utf8_decode raw) as [s|].
  - destruct (legacy_headers [] (splitlines s)) as [[r rest]|e] eqn:E.
    + split; [discriminate|]. split; [discriminate|].
      intros [H|(s' & line & [= <-] & Hin & Hn)]; [discriminate|].
      destruct (legacy_headers_ok _ _ _ _ E) as (_ & Hs & _).
      now destruct (Hs line Hin).
    + destruct (legacy_headers_raise _ _ _ E) as (-> & line & Hin & Hn).
      split; [now intros e [= <-]|]. split; [|reflexivity].
      intros _. right. now exists s, line.
  - split; [now intros e [= <-]|]. split; [now left|reflexivity].
Qed.

End Legacy.

Lemma legacy_message_shape_witness :
  load_message_legacy payload_A = Ok message_A /\
  exists d,
    message_A = VDict d /\ truthy message_A = true /\
    (forall k v, dict_get d k = Some v -> exists s, v = VStr s) /\
    exists body, dict_get d (u "message") = Some (VStr body).
Proof.
  split; [vm_compute; reflexivity|].
  apply (legacy_message_shape payload_A).
  vm_compute; reflexivity.
Defined.

Lemma legacy_message_lookup_witness :
  utf8_decode payload_overridden
    = Some (map Byte.to_N payload_overridden) /\
  subscript
    (VDict [ (u "message", VStr (u "from the body"));
             (u "host", VStr (u "db2")) ]) (u "message")
    = Ok (VStr (u "from the body")) /\
  subscript
    (VDict [ (u "message", VStr (u "from the body"));
             (u "host", VStr (u "db2")) ]) (u "host")
    = Ok (VStr (u "db2")).
Proof.
  assert (Hne : u "host" <> u "message") by discriminate.
  pose proof (legacy_message_lookup payload_overridden
                (map Byte.to_N payload_overridden)
                (VDict [ (u "message", VStr (u "from the body"));
                         (u "host", VStr (u "db2")) ])
                eq_refl eq_refl) as [H1 H2].
  split; [reflexivity|]. split; [exact H1|exact (H2 (u "host") Hne)].
Defined.

(** ** More on the value resolver *)

Section Lookups.
Context {rt : Runtime}.

Lemma print_all_message_id (os : list out) (st : app) :
  message_id (print_all os st) = message_id st.
Proof.
  revert st; induction os as [|o os IH]; intros st; [reflexivity|].
  simpl. now rewrite IH.
Qed.

Lemma py_format_group (a c : pystr) :
  py_format (u "  {}: {}") [a; c] = Ok (u "  " ++ a ++ u ": " ++ c).
Proof.
  change (py_format (u "  {}: {}") [a; c])
    with (Ok (u "  " ++ a ++ u ": " ++ c ++ [])).
  now rewrite app_nil_r.
Qed.

Lemma py_format_reference (a : pystr) :
  py_format (u "error: invalid field/tag reference: {}; matches were:") [a]
  = Ok (u "error: invalid field/tag reference: " ++ a ++
        u "; matches were:").
Proof. reflexivity. Qed.

Lemma log_groups_prints (groups : dict) (st : app) :
  log_groups groups st =
  (Ok tt,
   print_all
     (map (fun kv => Line (msg_prefix st ++ u "  " ++ fst kv ++ u ": " ++
                           py_str (snd kv))) groups) st).
Proof.
  revert st; induction groups as [|[k v] g IH]; intros st; [reflexivity|].
  cbn [log_groups]. rewrite bind_eq.
  rewrite (app_log_ok _ _ _ st (py_format_group k (py_str v))).
  rewrite IH. reflexivity.
Qed.

(** What [rule_value_lookup] does when its [try] raises a [KeyError]. *)
Lemma rule_value_lookup_missing (rl : rule) (msg : value) (m : Match)
  (l : lookup) (k : pystr) (st : app) :
  reference_value rl msg m (lookup_ref l) = Raise (KeyError k) ->
  (forall ty, lookup_coercion l = Some ty -> assoc TYPE_MAP ty <> None) ->
  rule_value_lookup rl msg m l st =
  (Ok VNone,
   print_all (missing_reference_line (lookup_ref l) st :: group_lines m st)
     st).
Proof.
  intros Hr Hty.
  assert (Hh :
    (app_log (u "error: invalid field/tag reference: {}; matches were:")
       [lookup_ref l] None ;; log_groups (groupdict m) ;; ret VNone) st
    = (Ok VNone,
       print_all (missing_reference_line (lookup_ref l) st
                  :: group_lines m st) st)).
  { rewrite bind_eq.
    rewrite (app_log_ok _ _ _ st (py_format_reference (lookup_ref l))).
    rewrite bind_eq, log_groups_prints. reflexivity. }
  unfold reference_value in Hr. unfold rule_value_lookup.
  destruct l as [ref|[ty|] ref];
    cbv beta iota delta [lookup_coercion lookup_ref] in *.
  - rewrite bind_ret. cbv beta iota delta [fst snd]. rewrite bind_eq, Hr.
    rewrite try_lift_raise. simpl is_KeyError. cbv iota. now rewrite Hh.
  - specialize (Hty ty eq_refl).
    destruct (assoc TYPE_MAP ty) as [f|]; [|now destruct Hty].
    rewrite bind_ret. cbv beta iota delta [fst snd]. rewrite bind_eq, Hr.
    rewrite try_lift_raise. simpl is_KeyError. cbv iota. now rewrite Hh.
  - rewrite bind_ret. cbv beta iota delta [fst snd]. rewrite bind_eq, Hr.
    rewrite try_lift_raise. simpl is_KeyError. cbv iota. now rewrite Hh.
Qed.

Lemma contains_split_once (c : N) (s : pystr) :
  contains c s = true -> exists a z, split_once [c] s = Some (a, z).
Proof.
  induction s as [|x s IH]; simpl; [discriminate|].
  destruct (c =? x) eqn:E; [intros _; now eexists; eexists|].
  simpl. intros H. destruct (IH H) as (a & z & ->). now eexists; eexists.
Qed.

Lemma split_once_before (c : N) (s a z : pystr) :
  split_once [c] s = Some (a, z) -> contains c a = false.
Proof.
  revert a; induction s as [|x s IH]; intros a; simpl; [discriminate|].
  destruct (c =? x) eqn:E; [now intros [= <- <-]|].
  destruct (split_once [c] s) as [[a' z']|]; [|discriminate].
  intros [= <- <-]. simpl. rewrite E. now apply IH.
Qed.

(** X4: what a lookup resolves to, a value or an exception, does not
    depend on the state of the application, and neither do the points of a
    message; the state only receives printed lines. *)
Theorem lookup_and_points_are_stateless (rl : rule) (rs : list rule)
  (msg : value) (m : Match) (l : lookup) (points : list point)
  (st1 st2 : app) :
  fst (rule_value_lookup rl msg m l st1) =
    fst (rule_value_lookup rl msg m l st2) /\
  printed st1 (snd (rule_value_lookup rl msg m l st1)) /\
  fst (parse_message_loop rs msg points st1) =
    fst (parse_message_loop rs msg points st2) /\
  printed st1 (snd (parse_message_loop rs msg points st1)).
Proof.
  split; [now rewrite !rule_value_lookup_fst|]. split.
  - destruct (rule_value_lookup_resolved rl msg m l st1) as (st' & E & P).
    now rewrite E.
  - destruct (parse_message_loop_parsed rs msg points st1) as (s1 & E1 & P1).
    destruct (parse_message_loop_parsed rs msg points st2) as (s2 & E2 & _).
    rewrite E1, E2. now split.
Qed.

(** X5: a reference to a key the message does not have resolves to [None],
    with or without a coercion type, and raises nothing; it prints the line
    for the reference and then one line for each group of the match. *)
Theorem missing_message_key_resolves_to_none (rl : rule) (d : dict)
  (m : Match) (l : lookup) (st : app) :
  contains 46 (lookup_ref l) = false ->
  dict_get d (lookup_ref l) = None ->
  (forall ty, lookup_coercion l = Some ty -> assoc TYPE_MAP ty <> None) ->
  rule_value_lookup rl (VDict d) m l st =
  (Ok VNone,
   print_all (missing_reference_line (lookup_ref l) st :: group_lines m st)
     st).
Proof.
  intros Hc Hd Hty.
  apply (rule_value_lookup_missing rl (VDict d) m l (lookup_ref l) st);
    [|exact Hty].
  unfold reference_value, subscript. now rewrite Hc, Hd.
Qed.

(** X6: a reference [key.group] whose [key] is the match key of the rule
    resolves to the group of that name of the match, and to [None], with
    the lines of a missing reference, when the pattern has no such
    group. *)
Theorem capture_group_lookup (rl : rule) (msg : value) (m : Match)
  (l : lookup) (group : pystr) (st : app) :
  split_once [46] (lookup_ref l) = Some (match_key rl, group) ->
  lookup_coercion l = None ->
  rule_value_lookup rl msg m l st =
  match dict_get (groupdict m) group with
  | Some v => (Ok v, st)
  | None =>
      (Ok VNone,
       print_all
         (missing_reference_line (lookup_ref l) st :: group_lines m st) st)
  end.
Proof.
  intros Hs Hc.
  assert (Hr : reference_value rl msg m (lookup_ref l) =
               subscript (VDict (groupdict m)) group).
  { unfold reference_value, rule_value_match_lookup.
    rewrite (split_once_contains 46 _ _ Hs), Hs.
    now rewrite str_eqb_refl. }
  unfold subscript in Hr.
  destruct (dict_get (groupdict m) group) as [v|].
  - pose proof (rule_value_lookup_cases rl msg m l st) as H.
    now rewrite Hc, Hr in H.
  - apply (rule_value_lookup_missing rl msg m l group st Hr).
    intros ty Hty. congruence.
Qed.

(** X7: a reference with a dot in it never reads the message: a key of the
    message whose name has a dot cannot be looked up. *)
Theorem dotted_reference_never_reads_message (rl : rule) (m : Match)
  (l : lookup) (msg1 msg2 : value) (st : app) :
  contains 46 (lookup_ref l) = true ->
  rule_value_lookup rl msg1 m l st = rule_value_lookup rl msg2 m l st.
Proof.
  intros Hc. unfold rule_value_lookup.
  destruct l as [ref|[ty|] ref]; cbv beta iota delta [lookup_ref] in Hc.
  - rewrite !bind_ret. cbv beta iota delta [fst snd]. now rewrite Hc.
  - destruct (assoc TYPE_MAP ty) as [f|]; [|reflexivity].
    rewrite !bind_ret. cbv beta iota delta [fst snd]. now rewrite Hc.
  - rewrite !bind_ret. cbv beta iota delta [fst snd]. now rewrite Hc.
Qed.

(** X8: when the match key of a rule has a dot in it, no reference with a
    dot can name it: each one raises the [TypeError] of a foreign key. *)
Theorem dotted_match_key_has_no_group_lookup (rl : rule) (msg : value)
  (m : Match) (l : lookup) (st : app) :
  contains 46 (match_key rl) = true ->
  contains 46 (lookup_ref l) = true ->
  (forall ty, lookup_coercion l = Some ty -> assoc TYPE_MAP ty <> None) ->
  rule_value_lookup rl msg m l st = (Raise TypeError, st).
Proof.
  intros Hk Hc Hty.
  destruct (contains_split_once 46 _ Hc) as (a & z & Hs).
  assert (Hne : a <> match_key rl).
  { intros ->. rewrite (split_once_before 46 _ _ _ Hs) in Hk.
    discriminate. }
  assert (Hr : reference_value rl msg m (lookup_ref l) = Raise TypeError).
  { unfold reference_value, rule_value_match_lookup.
    now rewrite Hc, Hs, (str_eqb_neq _ _ Hne). }
  pose proof (rule_value_lookup_cases rl msg m l st) as H.
  rewrite Hr in H. cbv beta iota delta [is_KeyError] in H.
  destruct (lookup_coercion l) as [ty|]; [|exact H].
  specialize (Hty ty eq_refl).
  destruct (assoc TYPE_MAP ty); [exact H|now destruct Hty].
Qed.

(** X9: with the coercion type [int], a text that reads as zero resolves
    to the integer 0 and an empty text stays the empty string, which [int]
    is not applied to; both are falsy, and a rule whose only field is such
    a lookup makes no point: [make_point] fails on its assertion. *)
Theorem zero_and_empty_make_no_point (rl : rule) (msg t : value)
  (m : Match) (k ref s : pystr) (st : app) :
  fields rl = Some [(k, LDict (Some (u "int")) ref)] ->
  reference_value rl msg m ref = Ok (VStr s) ->
  s = [] \/ int_of_str s = Some 0%Z ->
  subscript msg (u "@timestamp") = Ok t ->
  rule_value_lookup rl msg m (LDict (Some (u "int")) ref) st =
    (Ok (if is_nil s then VStr [] else VInt 0), st) /\
  make_point rl msg m st =
    (Raise (AssertionError (u "Unable to populate field values")), st).
Proof.
  intros Hf Hr Hs Ht.
  assert (Hl : rule_value_lookup rl msg m (LDict (Some (u "int")) ref) st =
               (Ok (if is_nil s then VStr [] else VInt 0), st)).
  { pose proof (rule_value_lookup_cases rl msg m
                  (LDict (Some (u "int")) ref) st) as H.
    cbv beta iota delta [lookup_coercion lookup_ref] in H.
    change (assoc TYPE_MAP (u "int")) with (Some py_int) in H.
    cbv iota in H. rewrite Hr in H. rewrite H.
    destruct s as [|c s]; [reflexivity|].
    destruct Hs as [Hs|Hs]; [discriminate|].
    cbn [truthy is_nil negb py_int]. now rewrite Hs. }
  split; [exact Hl|].
  unfold make_point. rewrite bind_eq. unfold lift at 1. rewrite Ht.
  rewrite bind_eq. unfold get_fields_tags, rule_get. rewrite Hf.
  cbn [get_fields_tags_loop]. rewrite bind_eq, Hl.
  now destruct s.
Qed.

End Lookups.

Lemma missing_message_key_resolves_to_none_witness :
  contains 46 (lookup_ref (LStr (u "nothing"))) = false /\
  @rule_value_lookup demo_runtime rule_no_value message_A_timestamp
    match_code (LStr (u "nothing")) (fresh [rule_no_value] None)
  = (Ok VNone,
     print_all
       [ Line (u "[msg 0]: error: invalid field/tag reference: nothing; matches were:");
         Line (u "[msg 0]:   code: E42") ]
       (fresh [rule_no_value] None)).
Proof.
  split; [reflexivity|].
  refine (@missing_message_key_resolves_to_none demo_runtime rule_no_value
            [ (u "@timestamp", VStr (u "2024-01-01T00:00:00Z"));
              (u "level", VStr (u "error")); (u "host", VStr (u "db1"));
              (u "message", VStr (u "something broke")) ]
            match_code (LStr (u "nothing")) (fresh [rule_no_value] None)
            eq_refl eq_refl _).
  intros ty H; discriminate H.
Defined.

Lemma capture_group_lookup_witness :
  split_once [46] (lookup_ref (LStr (u "level.code")))
    = Some (match_key rule_A, u "code") /\
  @rule_value_lookup demo_runtime rule_A message_A match_code
    (LStr (u "level.code")) (fresh [rule_A] None)
  = (Ok (VStr (u "E42")), fresh [rule_A] None).
Proof.
  split; [reflexivity|].
  exact (@capture_group_lookup demo_runtime rule_A message_A match_code
           (LStr (u "level.code")) (u "code") (fresh [rule_A] None)
           eq_refl eq_refl).
Defined.

Lemma dotted_reference_never_reads_message_witness :
  contains 46 (lookup_ref (LStr (u "level.code"))) = true /\
  @rule_value_lookup demo_runtime rule_A
    (VDict [(u "level.code", VStr (u "in the message"))]) match_code
    (LStr (u "level.code")) (fresh [rule_A] None)
  = @rule_value_lookup demo_runtime rule_A VNone match_code
      (LStr (u "level.code")) (fresh [rule_A] None).
Proof.
  split; [reflexivity|].
  exact (@dotted_reference_never_reads_message demo_runtime rule_A match_code
           (LStr (u "level.code"))
           (VDict [(u "level.code", VStr (u "in the message"))]) VNone
           (fresh [rule_A] None) eq_refl).
Defined.

Lemma dotted_match_key_has_no_group_lookup_witness :
  contains 46 (match_key rule_dotted_key) = true /\
  contains 46 (lookup_ref (LStr (u "log.level.code"))) = true /\
  @rule_value_lookup demo_runtime rule_dotted_key message_A match_code
    (LStr (u "log.level.code")) (fresh [rule_dotted_key] None)
  = (Raise TypeError, fresh [rule_dotted_key] None).
Proof.
  split; [reflexivity|]. split; [reflexivity|].
  refine (@dotted_match_key_has_no_group_lookup demo_runtime rule_dotted_key
            message_A match_code (LStr (u "log.level.code"))
            (fresh [rule_dotted_key] None) eq_refl eq_refl _).
  intros ty H; discriminate H.
Defined.

Lemma zero_and_empty_make_no_point_witness :
  fields rule_zero = Some [(u "count", LDict (Some (u "int")) (u "count"))] /\
  @reference_value rule_zero message_zero no_groups (u "count")
    = Ok (VStr (u "0")) /\
  @int_of_str demo_runtime (u "0") = Some 0%Z /\
  @make_point demo_runtime rule_zero message_zero no_groups
    (fresh [rule_zero] None)
  = (Raise (AssertionError (u "Unable to populate field values")),
     fresh [rule_zero] None).
Proof.
  split; [reflexivity|]. split; [reflexivity|]. split; [reflexivity|].
  exact (proj2
    (@zero_and_empty_make_no_point demo_runtime rule_zero message_zero
       (VStr (u "2024-01-01T00:00:00Z")) no_groups (u "count") (u "count")
       (u "0") (fresh [rule_zero] None) eq_refl eq_refl
       (or_intror eq_refl) eq_refl)).
Defined.

(** ** More on the points of a message *)

Section MorePoints.
Context {rt : Runtime}.

Lemma checked_dict (d : dict) (key pattern : pystr) :
  checked (VDict d) key pattern =
  match dict_get d key with
  | None => Ok None
  | Some (VStr s) => Ok (re_match pattern (strip s))
  | Some _ => Raise AttributeError
  end.
Proof.
  unfold checked, subscript.
  destruct (dict_get d key) as [v|]; [|reflexivity]. now destruct v.
Qed.

Lemma checked_raise (msg : value) (key pattern : pystr) (e : exn) :
  checked msg key pattern = Raise e ->
  (e = TypeError /\ forall d, msg <> VDict d) \/
  (e = AttributeError /\
   exists d v, msg = VDict d /\ dict_get d key = Some v /\
               forall s, v <> VStr s).
Proof.
  destruct msg as [| | | | |l|d];
    try (intros [= <-]; left; split; [reflexivity|discriminate]).
  rewrite checked_dict.
  destruct (dict_get d key) as [v|] eqn:E; [|discriminate].
  destruct v; try discriminate;
    (intros [= <-]; right; split; [reflexivity|]);
    (eexists; eexists; split; [reflexivity|]; split; [exact E|discriminate]).
Qed.

Lemma parsed_raise (rs : list rule) (msg : value) (points : list point)
  (e : exn) :
  parsed rs msg points = Raise e ->
  exists rl, In rl rs /\
             checked msg (match_key rl) (match_regex rl) = Raise e.
Proof.
  revert points; induction rs as [|rl rs IH]; intros points; simpl;
    [discriminate|].
  destruct (checked msg (match_key rl) (match_regex rl)) as [[m|]|e'] eqn:E.
  - destruct (built rl msg m); intros H; destruct (IH _ H) as (r & Hin & Hr);
      exists r; split; auto.
  - intros H; destruct (IH _ H) as (r & Hin & Hr); exists r; split; auto.
  - intros [= <-]. exists rl; split; [now left|exact E].
Qed.

Lemma parsed_dict_raises (rs : list rule) (d : dict) (rl : rule)
  (points : list point) :
  In rl rs ->
  checked (VDict d) (match_key rl) (match_regex rl) = Raise AttributeError ->
  parsed rs (VDict d) points = Raise AttributeError.
Proof.
  intros Hin Hc. revert points; induction rs as [|r rs IH]; intros points;
    [destruct Hin|]. simpl.
  destruct (checked (VDict d) (match_key r) (match_regex r))
    as [[m|]|e] eqn:E.
  - destruct Hin as [->|Hin]; [congruence|].
    destruct (built r (VDict d) m); now apply IH.
  - destruct Hin as [->|Hin]; [congruence|]. now apply IH.
  - destruct (checked_raise _ _ _ _ E) as [[_ H]|[-> _]];
      [now destruct (H d)|reflexivity].
Qed.

Lemma parsed_points (rs : list rule) (msg : value)
  (points points' : list point) :
  parsed rs msg points = Ok points' ->
  points' = points ++ flat_map (fun rl => rule_points rl msg) rs /\
  forall rl, In rl rs -> parsed [rl] msg [] = Ok (rule_points rl msg).
Proof.
  revert points; induction rs as [|rl rs IH]; intros points; simpl.
  - intros [= <-]. split; [now rewrite app_nil_r|intros rl []].
  - unfold rule_points at 1 3.
    destruct (checked msg (match_key rl) (match_regex rl)) as [[m|]|e] eqn:E;
      [|intros H; destruct (IH _ H) as [-> Hr]; split;
        [reflexivity|intros r [<-|Hin]; [|now apply Hr]];
        unfold rule_points; now rewrite E|discriminate].
    destruct (built rl msg m) as [p|e] eqn:B; intros H;
      destruct (IH _ H) as [-> Hr]; split;
      try (intros r [<-|Hin]; [|now apply Hr];
           unfold rule_points; now rewrite E, B).
    + now rewrite <- app_assoc.
    + reflexivity.
Qed.

(** X10: a point [make_point] returns has the name of the rule as its
    measurement and the value of [@timestamp] as its time, whatever that
    value is; it has a field, and its tags are missing or not empty. *)
Theorem point_comes_from_rule_and_message (rl : rule) (msg : value)
  (m : Match) (p : point) (st st' : app) :
  make_point rl msg m st = (Ok p, st') ->
  measurement p = name rl /\
  subscript msg (u "@timestamp") = Ok (time p) /\
  is_nil (pfields p) = false /\
  ptags p <> Some [] /\
  printed st st'.
Proof.
  intros H. destruct (make_point_built rl msg m st) as (s1 & E & P).
  rewrite H in E. injection E as E <-. symmetry in E.
  pose proof (built_fields rl msg m p E) as Hf.
  unfold built in E.
  destruct (subscript msg (u "@timestamp")) as [t|]; [|discriminate].
  destruct (collected rl msg m (lookup_items Fields rl (Some default_fields))
              []) as [fs|]; [|discriminate].
  destruct (is_nil fs); [discriminate|].
  destruct (collected rl msg m (lookup_items Tags rl None) []) as [ts|];
    [|discriminate].
  injection E as <-. simpl. repeat split; auto.
  destruct ts; simpl; discriminate.
Qed.

(** X11: the points [parse_message] returns are, in the order of the
    rules, the points each rule gives when it is the only rule: a rule
    neither adds to nor takes from what another rule gives. *)
Theorem points_are_per_rule (rs : list rule) (msg : value)
  (points points' : list point) (st st' : app) :
  parse_message_loop rs msg points st = (Ok points', st') ->
  points' = points ++ flat_map (fun rl => rule_points rl msg) rs /\
  (forall rl st0, In rl rs ->
     fst (parse_message_loop [rl] msg [] st0) = Ok (rule_points rl msg)) /\
  (List.length points' <= List.length points + List.length rs)%nat.
Proof.
  intros H. destruct (parse_message_loop_parsed rs msg points st)
    as (s1 & E & _).
  rewrite H in E. injection E as E _. symmetry in E.
  destruct (parsed_points rs msg points points' E) as [-> Hr].
  split; [reflexivity|]. split.
  - intros rl st0 Hin.
    destruct (parse_message_loop_parsed [rl] msg [] st0) as (s2 & E2 & _).
    rewrite E2. simpl. now apply Hr.
  - rewrite length_app. apply Nat.add_le_mono_l.
    clear. induction rs as [|rl rs IH]; [apply Nat.le_refl|].
    simpl. rewrite length_app.
    assert (List.length (rule_points rl msg) <= 1)%nat.
    { unfold rule_points.
      destruct (checked msg (match_key rl) (match_regex rl)) as [[m|]|];
        try (simpl; lia).
      destruct (built rl msg m); simpl; lia. }
    lia.
Qed.

(** X12: [parse_message] raises only a [TypeError], for a message that is
    not a mapping, or an [AttributeError], for a mapping in which the match
    key of one of the rules holds a value that is not a string. *)
Theorem parse_message_raises_for_the_message_only (rs : list rule)
  (msg : value) (points : list point) (e : exn) (st st' : app) :
  parse_message_loop rs msg points st = (Raise e, st') ->
  (e = TypeError /\ forall d, msg <> VDict d) \/
  (e = AttributeError /\
   exists d rl v,
     msg = VDict d /\ In rl rs /\ dict_get d (match_key rl) = Some v /\
     forall s, v <> VStr s).
Proof.
  intros H. destruct (parse_message_loop_parsed rs msg points st)
    as (s1 & E & _).
  rewrite H in E. injection E as E _. symmetry in E.
  destruct (parsed_raise rs msg points e E) as (rl & Hin & Hc).
  destruct (checked_raise _ _ _ _ Hc) as [Ht|(He & d & v & Hm & Hd & Hv)];
    [now left|].
  right. split; [exact He|]. now exists d, rl, v.
Qed.

(** X13: when the match key of one rule holds a value that is not a
    string, [parse_message] raises for the whole message, whatever the
    other rules would give, and [handle] passes nothing to the client. *)
Theorem non_string_field_fails_the_message (raw : bytes) (d : dict)
  (rl : rule) (v : value) (st st1 : app) :
  load_message raw (received raw st) = (Ok (VDict d), st1) ->
  In rl (rules st) ->
  dict_get d (match_key rl) = Some v ->
  (forall s, v <> VStr s) ->
  fst (parse_message (VDict d) st1) = Raise AttributeError /\
  fst (handle raw st) = Ok tt /\
  client_calls (snd (handle raw st)) = client_calls st.
Proof.
  intros Hl Hin Hd Hv.
  assert (Hc : checked (VDict d) (match_key rl) (match_regex rl)
               = Raise AttributeError).
  { rewrite checked_dict, Hd. destruct v; try reflexivity.
    now destruct (Hv s). }
  pose proof (load_message_evolves raw (received raw st)) as Ev.
  rewrite Hl in Ev. simpl in Ev. destruct Ev as (Hr & _).
  pose proof (load_message_calls raw (received raw st)) as Hcalls.
  rewrite Hl in Hcalls. simpl in Hcalls.
  rewrite received_rules in Hr. rewrite received_calls in Hcalls.
  destruct (parse_message_parsed (VDict d) st1) as (st2 & E2 & P2).
  rewrite Hr in E2.
  rewrite (parsed_dict_raises (rules st) d rl [] Hin Hc) in E2.
  split; [now rewrite E2|]. split; [apply handle_ok|].
  rewrite handle_eq, handle_body_eq, Hl.
  assert (truthy (VDict d) = true) as ->.
  { destruct d; [discriminate Hd|reflexivity]. }
  rewrite E2. simpl. now rewrite (printed_calls _ _ P2).
Qed.

(** X14: for the message of a legacy payload [parse_message] raises
    nothing, whatever the rules are. *)
Theorem legacy_message_always_parses (raw : bytes) (msg : value)
  (rs : list rule) (points : list point) (st : app) :
  load_message_legacy raw = Ok msg ->
  exists points' st',
    parse_message_loop rs msg points st = (Ok points', st').
Proof.
  intros H. destruct (legacy_message_fields raw msg H) as (d & -> & Ha).
  destruct (parse_message_loop_parsed rs (VDict d) points st)
    as (st' & E & _).
  destruct (parsed rs (VDict d) points) as [points'|e] eqn:Ep;
    [now exists points', st'|].
  destruct (parsed_raise _ _ _ _ Ep) as (rl & _ & Hc).
  destruct (checked_raise _ _ _ _ Hc) as [[_ Hn]|(_ & d' & v & [= <-] & Hd & Hv)].
  - now destruct (Hn d).
  - destruct (Ha _ _ Hd) as [s ->]. now destruct (Hv s).
Qed.

End MorePoints.

Lemma point_comes_from_rule_and_message_witness :
  @make_point demo_runtime rule_A message_A_timestamp no_groups
    (fresh [rule_A] None) = (Ok point_A, fresh [rule_A] None) /\
  measurement point_A = name rule_A /\
  subscript message_A_timestamp (u "@timestamp") = Ok (time point_A).
Proof.
  pose proof (@point_comes_from_rule_and_message demo_runtime rule_A
                message_A_timestamp no_groups point_A (fresh [rule_A] None)
                (fresh [rule_A] None) eq_refl) as (H1 & H2 & _).
  split; [reflexivity|]. split; [exact H1|exact H2].
Defined.

Lemma points_are_per_rule_witness :
  @parse_message_loop demo_runtime [rule_A; rule_host] message_A_timestamp
    [] (fresh [] None) = (Ok [point_A; point_host], fresh [] None) /\
  [point_A; point_host] =
    [] ++ flat_map (fun rl => @rule_points demo_runtime rl message_A_timestamp)
            [rule_A; rule_host].
Proof.
  split; [reflexivity|].
  exact (proj1
    (@points_are_per_rule demo_runtime [rule_A; rule_host]
       message_A_timestamp [] [point_A; point_host] (fresh [] None)
       (fresh [] None) eq_refl)).
Defined.

Lemma parse_message_raises_for_the_message_only_witness :
  @parse_message_loop demo_runtime [rule_host; rule_A] message_number []
    (fresh [] None) = (Raise AttributeError, fresh [] None) /\
  ((AttributeError = TypeError /\ forall d, message_number <> VDict d) \/
   (AttributeError = AttributeError /\
    exists d rl v,
      message_number = VDict d /\ In rl [rule_host; rule_A] /\
      dict_get d (match_key rl) = Some v /\ forall s, v <> VStr s)).
Proof.
  split; [reflexivity|].
  exact (@parse_message_raises_for_the_message_only demo_runtime
           [rule_host; rule_A] message_number [] AttributeError
           (fresh [] None) (fresh [] None) eq_refl).
Defined.

Lemma non_string_field_fails_the_message_witness :
  In rule_A [rule_host; rule_A] /\
  fst (@parse_message number_runtime message_number
         (print json_line
            (with_loader LoaderJson
               (with_message_id 1 (fresh [rule_host; rule_A] None)))))
  = Raise AttributeError /\
  client_calls (snd (@handle number_runtime payload_number
                       (fresh [rule_host; rule_A] None))) = [].
Proof.
  assert (Hin : In rule_A [rule_host; rule_A]) by (right; left; reflexivity).
  assert (Hv : forall s, VInt 3 <> VStr s) by discriminate.
  pose proof (@non_string_field_fails_the_message number_runtime
                payload_number
                [ (u "@timestamp", VStr (u "2024-01-01T00:00:00Z"));
                  (u "host", VStr (u "db1")); (u "level", VInt 3);
                  (u "message", VStr (u "something broke")) ]
                rule_A (VInt 3) (fresh [rule_host; rule_A] None)
                (print json_line
                   (with_loader LoaderJson
                      (with_message_id 1 (fresh [rule_host; rule_A] None))))
                eq_refl Hin eq_refl Hv) as (H1 & _ & H3).
  split; [exact Hin|]. split; [exact H1|exact H3].
Defined.

Lemma legacy_message_always_parses_witness :
  load_message_legacy payload_A = Ok message_A /\
  exists points' st',
    @parse_message_loop demo_runtime [rule_A; rule_host] message_A []
      (fresh [] None) = (Ok points', st').
Proof.
  split; [reflexivity|].
  exact (@legacy_message_always_parses demo_runtime payload_A message_A
           [rule_A; rule_host] [] (fresh [] None) eq_refl).
Defined.

(** ** Trimming *)

Lemma lstrip_by_spaces (p : N -> bool) (ws s : pystr) :
  forallb p ws = true -> lstrip_by p (ws ++ s) = lstrip_by p s.
Proof.
  induction ws as [|c ws IH]; simpl; [reflexivity|].
  intros H. apply andb_true_iff in H as [-> H]. now apply IH.
Qed.

Lemma lstrip_by_app (p : N -> bool) (s t : pystr) :
  lstrip_by p (s ++ t) =
  match lstrip_by p s with
  | [] => lstrip_by p t
  | c :: r => (c :: r) ++ t
  end.
Proof.
  induction s as [|c s IH]; simpl; [now destruct (lstrip_by p t)|].
  destruct (p c); [exact IH|reflexivity].
Qed.

Lemma forallb_rev (A : Type) (p : A -> bool) (l : list A) :
  forallb p (rev l) = forallb p l.
Proof.
  induction l as [|x l IH]; [reflexivity|].
  simpl. rewrite forallb_app, IH. simpl. rewrite andb_true_r.
  apply andb_comm.
Qed.

Lemma strip_by_padding (p : N -> bool) (a s z : pystr) :
  forallb p a = true -> forallb p z = true ->
  strip_by p (a ++ s ++ z) = strip_by p s.
Proof.
  intros Ha Hz. unfold strip_by.
  rewrite (lstrip_by_spaces p a _ Ha), lstrip_by_app.
  destruct (lstrip_by p s) as [|c r].
  - pose proof (lstrip_by_spaces p z [] Hz) as H.
    rewrite app_nil_r in H. now rewrite H.
  - rewrite rev_app_distr. rewrite lstrip_by_spaces; [reflexivity|].
    now rewrite forallb_rev.
Qed.

Section Padding.
Context {rt : Runtime}.

(** X15: white space around the value of the match key does not change
    what [check_re] returns: a value and the same value with white space
    before and after it give the same match or non-match. *)
Theorem padding_does_not_change_the_match (d1 d2 : dict)
  (key pattern a s z : pystr) (st : app) :
  dict_get d1 key = Some (VStr s) ->
  dict_get d2 key = Some (VStr (a ++ s ++ z)) ->
  forallb isspace a = true -> forallb isspace z = true ->
  check_re (VDict d2) key pattern st = check_re (VDict d1) key pattern st.
Proof.
  intros H1 H2 Ha Hz. rewrite !check_re_dict, H1, H2.
  unfold strip. now rewrite (strip_by_padding isspace a s z Ha Hz).
Qed.

End Padding.

Lemma padding_does_not_change_the_match_witness :
  forallb isspace (u "  ") = true /\ forallb isspace [9; 10] = true /\
  @check_re demo_runtime (VDict [(u "level", VStr (u "  error" ++ [9; 10]))])
    (u "level") (u "error") (fresh [] None)
  = @check_re demo_runtime (VDict [(u "level", VStr (u "error"))])
      (u "level") (u "error") (fresh [] None).
Proof.
  split; [reflexivity|]. split; [reflexivity|].
  exact (@padding_does_not_change_the_match demo_runtime
           [(u "level", VStr (u "error"))]
           [(u "level", VStr (u "  error" ++ [9; 10]))]
           (u "level") (u "error") (u "  ") (u "error") [9; 10]
           (fresh [] None) eq_refl eq_refl eq_refl eq_refl).
Defined.

(** ** Sending the points *)

Lemma py_format_error_bounded (n : nat) (f : pystr) (a : list pystr)
  (e : exn) :
  (List.length f <= n)%nat -> py_format f a = Raise e -> e = FormatError.
Proof.
  revert f a; induction n as [|n IH]; intros f a Hl H.
  - destruct f; [discriminate H|simpl in Hl; lia].
  - destruct f as [|c rest]; [discriminate H|].
    simpl in Hl. cbn [py_format] in H.
    destruct (c =? 123).
    + destruct rest as [|d rest']; [now injection H as <-|].
      simpl in Hl.
      destruct (d =? 123).
      * destruct (py_format rest' a) eqn:E; [discriminate|].
        injection H as <-. apply (IH rest' a); [lia|exact E].
      * destruct (d =? 125); [|now injection H as <-].
        destruct a as [|x a']; [now injection H as <-|].
        destruct (py_format rest' a') eqn:E; [discriminate|].
        injection H as <-. apply (IH rest' a'); [lia|exact E].
    + destruct (c =? 125).
      * destruct rest as [|d rest']; [now injection H as <-|].
        simpl in Hl.
        destruct (d =? 125); [|now injection H as <-].
        destruct (py_format rest' a) eqn:E; [discriminate|].
        injection H as <-. apply (IH rest' a); [lia|exact E].
      * destruct (py_format rest a) eqn:E; [discriminate|].
        injection H as <-. apply (IH rest a); [lia|exact E].
Qed.

Lemma py_format_brace_free (s : pystr) :
  brace_free s = true -> py_format s [] = Ok s.
Proof.
  intros H. pose proof (py_format_plain s [] [] H) as E.
  cbn [py_format] in E. now rewrite !app_nil_r in E.
Qed.

Lemma brace_free_join (sep : pystr) (parts : list pystr) :
  brace_free sep = true -> forallb brace_free parts = true ->
  brace_free (join sep parts) = true.
Proof.
  intros Hs. induction parts as [|p ps IH]; [reflexivity|].
  intros H. apply andb_true_iff in H as [Hp Hps].
  destruct ps as [|q ps]; [exact Hp|].
  change (join sep (p :: q :: ps)) with (p ++ sep ++ join sep (q :: ps)).
  rewrite !brace_free_app, Hp, Hs. now rewrite (IH Hps).
Qed.

Lemma brace_free_escape_quotes (s : pystr) :
  brace_free s = true -> brace_free (escape_quotes s) = true.
Proof.
  induction s as [|c s IH]; [reflexivity|]. intros H.
  apply andb_true_iff in H as [Hc Hs]. unfold escape_quotes. simpl.
  fold (escape_quotes s). rewrite brace_free_app, (IH Hs), andb_true_r.
  destruct (c =? 34); [reflexivity|]. simpl. now rewrite Hc.
Qed.

Section Sending.
Context {rt : Runtime}.

Lemma plain_value_str (v : value) :
  plain_value v = true -> brace_free (py_str v) = true.
Proof.
  destruct v as [|[]|z| | | |]; simpl; try discriminate; auto.
  intros _. apply str_of_Z_brace_free.
Qed.

Lemma plain_value_influxarg (v : value) :
  plain_value v = true -> brace_free (influxarg v) = true.
Proof.
  intros H. pose proof (plain_value_str v H) as Hs.
  destruct v; try discriminate H; unfold influxarg;
    rewrite ?brace_free_app, ?brace_free_escape_quotes, ?Hs; auto.
Qed.

Lemma plain_dict_fmtarg (d : dict) :
  plain_dict d = true -> brace_free (fmtarg d) = true.
Proof.
  intros H. unfold fmtarg. apply brace_free_join; [reflexivity|].
  unfold plain_dict in H. induction d as [|[k v] d IH]; [reflexivity|].
  cbn [forallb map fst snd] in *. apply andb_true_iff in H as [Hkv Hd].
  apply andb_true_iff in Hkv as [Hk Hv].
  rewrite !brace_free_app, Hk, (plain_value_influxarg v Hv), (IH Hd).
  reflexivity.
Qed.

Lemma plain_point_line (p : point) :
  plain_point p = true -> brace_free (point_line p) = true.
Proof.
  unfold plain_point, point_line. intros H.
  apply andb_true_iff in H as [H Ht].
  apply andb_true_iff in H as [H Hf].
  apply andb_true_iff in H as [Hm Hv].
  rewrite !brace_free_app, Hm, (plain_dict_fmtarg _ Hf),
    (plain_value_str _ Hv).
  destruct (ptags p) as [t|]; [|reflexivity].
  destruct (is_nil t); [reflexivity|].
  now rewrite brace_free_app, (plain_dict_fmtarg _ Ht).
Qed.

Lemma print_all_app (o1 o2 : list out) (st : app) :
  print_all (o1 ++ o2) st = print_all o2 (print_all o1 st).
Proof. apply fold_left_app. Qed.

Lemma printed_line_print (o : out) (st : app) (p : point) :
  printed_line (print o st) p = printed_line st p.
Proof. reflexivity. Qed.

Lemma log_points_eq (points : list point) (st : app) :
  log_points points st =
  if forallb line_ok points
  then (Ok tt, print_all (map (printed_line st) points) st)
  else (Raise FormatError,
        print_all (map (printed_line st) (ok_prefix points)) st).
Proof.
  revert st; induction points as [|p points IH]; intros st; [reflexivity|].
  cbn [log_points]. rewrite bind_eq.
  change (forallb line_ok (p :: points))
    with (line_ok p && forallb line_ok points).
  change (ok_prefix (p :: points))
    with (if line_ok p then p :: ok_prefix points else []).
  destruct (py_format (point_line p) []) as [s|e] eqn:E.
  - assert (line_ok p = true) as -> by (unfold line_ok; now rewrite E).
    rewrite (app_log_ok _ _ _ st E), IH.
    assert (Line (msg_prefix st ++ s) = printed_line st p) as ->
      by (unfold printed_line, formatted_line; now rewrite E).
    rewrite (map_ext _ _ (printed_line_print (printed_line st p) st)).
    destruct (forallb line_ok points); reflexivity.
  - assert (line_ok p = false) as -> by (unfold line_ok; now rewrite E).
    rewrite (app_log_raise _ _ _ st E).
    now rewrite (py_format_error_bounded _ _ _ _ (Nat.le_refl _) E).
Qed.

Lemma print_all_stderr (os : list out) (st : app) :
  stderr (print_all os st) = stderr st ++ os.
Proof.
  revert st; induction os as [|o os IH]; intros st; simpl;
    [now rewrite app_nil_r|].
  rewrite IH. simpl. now rewrite <- app_assoc.
Qed.

Lemma print_all_calls (os : list out) (st : app) :
  client_calls (print_all os st) = client_calls st.
Proof.
  revert st; induction os as [|o os IH]; intros st; simpl; [reflexivity|].
  now rewrite IH.
Qed.

(** X16: [send_points] prints the lines of the points in order and then
    passes the whole batch to [write_points], once, when every line can be
    formatted and the batch is not empty; with a line that cannot be
    formatted it raises after the lines before that one, and the client is
    not called.  An empty batch prints nothing and calls nothing. *)
Theorem send_points_prints_then_writes (points : list point) (st : app) :
  if forallb line_ok points
  then
    stderr (snd (send_points points st)) =
      stderr st ++ map (printed_line st) points /\
    client_calls (snd (send_points points st)) =
      client_calls st ++ (if is_nil points then [] else [points]) /\
    fst (send_points points st) =
      (if is_nil points then Ok tt
       else match write_points (client_calls st) points with
            | Some e => Raise e
            | None => Ok tt
            end)
  else
    send_points points st =
    (Raise FormatError,
     print_all (map (printed_line st) (ok_prefix points)) st).
Proof.
  rewrite send_points_eq, log_points_eq.
  destruct (forallb line_ok points); [|reflexivity].
  destruct (is_nil points).
  - cbn [fst snd]. now rewrite print_all_stderr, print_all_calls, app_nil_r.
  - unfold client_write_points. rewrite print_all_calls.
    destruct (write_points (client_calls st) points); cbn [fst snd];
      unfold with_call; cbn [stderr client_calls];
      now rewrite print_all_stderr, print_all_calls.
Qed.

(** X17: a batch whose points have no brace in their measurement, keys,
    time and values, the values being strings, integers, booleans or
    [None], is printed as it is, one line for each point, and passed to
    the client. *)
Theorem plain_points_are_written (points : list point) (st : app) :
  forallb plain_point points = true ->
  is_nil points = false ->
  stderr (snd (send_points points st)) =
    stderr st ++ map (fun p => Line (msg_prefix st ++ point_line p)) points /\
  client_calls (snd (send_points points st)) = client_calls st ++ [points].
Proof.
  intros Hp Hn.
  assert (Hf : forall p, plain_point p = true ->
                         py_format (point_line p) [] = Ok (point_line p)).
  { intros p H. apply py_format_brace_free. now apply plain_point_line. }
  assert (Hok : forallb line_ok points = true).
  { clear Hn. induction points as [|p ps IH]; [reflexivity|].
    simpl in *. apply andb_true_iff in Hp as [H1 H2].
    unfold line_ok at 1. now rewrite (Hf p H1), (IH H2). }
  assert (Hm : map (printed_line st) points =
               map (fun p => Line (msg_prefix st ++ point_line p)) points).
  { clear Hn Hok. induction points as [|p ps IH]; [reflexivity|].
    simpl in *. apply andb_true_iff in Hp as [H1 H2].
    rewrite (IH H2). unfold printed_line, formatted_line.
    now rewrite (Hf p H1). }
  rewrite send_points_eq, log_points_eq, Hok, Hn, Hm.
  unfold client_write_points. rewrite print_all_calls.
  destruct (write_points (client_calls st) points); cbn [fst snd];
    unfold with_call; cbn [stderr client_calls];
    now rewrite print_all_stderr, print_all_calls.
Qed.

End Sending.

Lemma plain_points_are_written_witness :
  forallb plain_point [point_A; point_host] = true /\
  client_calls (snd (@send_points demo_runtime [point_A; point_host]
                       (fresh [] None))) = [] ++ [[point_A; point_host]].
Proof.
  split; [reflexivity|].
  exact (proj2
    (@plain_points_are_written demo_runtime [point_A; point_host]
       (fresh [] None) eq_refl eq_refl)).
Defined.

(** ** What the client receives *)

Section Traffic.
Context {rt : Runtime}.

Lemma printed_core (st st' : app) : printed st st' -> core st' = core st.
Proof. now intros [o ->]. Qed.

Lemma print_all_printed (os : list out) (st : app) :
  printed st (print_all os st).
Proof.
  revert st; induction os as [|o os IH]; intros st; [apply printed_refl|].
  simpl. eapply printed_trans; [apply printed_print|apply IH].
Qed.

Lemma send_points_core (points : list point) (st : app) :
  core (snd (send_points points st)) =
  (rules st, message_loader st,
   client_calls st ++
   (if is_nil points then []
    else if forallb line_ok points then [points] else [])).
Proof.
  rewrite send_points_eq, log_points_eq.
  destruct (forallb line_ok points).
  - pose proof (printed_core _ _
      (print_all_printed (map (printed_line st) points) st)) as P.
    destruct (is_nil points); cbn [fst snd].
    + rewrite P. unfold core. now rewrite app_nil_r.
    + unfold client_write_points.
      unfold core in P. injection P as P1 P2 P3.
      destruct (write_points _ points); cbn [fst snd]; unfold core, with_call;
        cbn [rules message_loader client_calls]; now rewrite P1, P2, P3.
  - cbn [fst snd].
    rewrite (printed_core _ _
      (print_all_printed (map (printed_line st) (ok_prefix points)) st)).
    unfold core. destruct (is_nil points); now rewrite app_nil_r.
Qed.

Lemma load_message_effect (raw : bytes) (st : app) :
  exists r st1,
    load_message raw st = (r, st1) /\
    core st1 = (rules st, loader_for (message_loader st) raw,
                client_calls st) /\
    match loader_for (message_loader st) raw with
    | Some x => r = run_loader x raw
    | None => exists e, r = Raise e
    end.
Proof.
  destruct (message_loader st) as [l|] eqn:L.
  - rewrite (load_message_committed l raw st L).
    exists (run_loader l raw), st. unfold core. simpl. now rewrite L.
  - rewrite (load_message_first raw st L). unfold loader_for, detected.
    destruct (load_message_json raw) as [v|e] eqn:E.
    + eexists; eexists; split; [reflexivity|]. simpl. now rewrite E.
    + destruct (is_ValueError e).
      * eexists; eexists; split; [reflexivity|]. now simpl.
      * eexists; eexists; split; [reflexivity|]. unfold core.
        rewrite L. split; [reflexivity|]. now exists e.
Qed.

(** The effect of [handle] on the rules, the loader and the calls. *)
Lemma handle_effect (raw : bytes) (st : app) :
  core (snd (handle raw st)) =
  (rules st, loader_for (message_loader st) raw,
   client_calls st ++
   match batch_of (rules st) (message_loader st) raw with
   | Some points => [points]
   | None => []
   end).
Proof.
  rewrite handle_eq.
  assert (Hw : forall X : Result unit * app,
            core (snd (match X with
                       | (Ok _, st') => (Ok tt, st')
                       | (Raise e, st') => (Ok tt, caught e st')
                       end)) = core (snd X)).
  { now intros [[[]|e] s]. }
  rewrite Hw, handle_body_eq.
  destruct (load_message_effect raw (received raw st))
    as (r & st1 & E1 & C1 & Hr).
  rewrite received_rules, received_calls, received_loader in C1.
  rewrite received_loader in Hr. rewrite E1. unfold batch_of.
  destruct (loader_for (message_loader st) raw) as [x|].
  - subst r. destruct (run_loader x raw) as [msg|e]; cbn [fst snd];
      [|now rewrite C1, app_nil_r].
    destruct (truthy msg); cbn [fst snd]; [|now rewrite C1, app_nil_r].
    destruct (parse_message_parsed msg st1) as (st2 & E2 & P2).
    apply printed_core in P2. rewrite C1 in P2.
    assert (rules st1 = rules st) as R1 by (now injection C1).
    rewrite E2, R1.
    destruct (parsed (rules st) msg []) as [points|e]; cbn [fst snd];
      [|now rewrite P2, app_nil_r].
    rewrite send_points_core. injection P2 as -> -> ->.
    destruct (is_nil points); [reflexivity|].
    now destruct (forallb line_ok points).
  - destruct Hr as [e ->]. cbn [fst snd]. now rewrite C1, app_nil_r.
Qed.

(** X18: the batch [handle] passes to the client for a datagram, if any,
    is fixed by the rules, the loader in force and the datagram: the
    counter, the debug flag, what was printed and what the client did
    before, raising or not, play no part; there is at most one call for a
    datagram, and the loader after it is the committed one. *)
Theorem handle_passes_the_batch_of_the_datagram (raw : bytes) (st : app) :
  client_calls (snd (handle raw st)) =
    client_calls st ++
    match batch_of (rules st) (message_loader st) raw with
    | Some points => [points]
    | None => []
    end /\
  message_loader (snd (handle raw st)) = loader_for (message_loader st) raw /\
  rules (snd (handle raw st)) = rules st /\
  (List.length (client_calls (snd (handle raw st)))
   <= S (List.length (client_calls st)))%nat.
Proof.
  pose proof (handle_effect raw st) as H. injection H as R L C.
  split; [exact C|]. split; [exact L|]. split; [exact R|].
  rewrite C, length_app.
  destruct (batch_of (rules st) (message_loader st) raw); simpl; lia.
Qed.

(** X19: the calls [serve_forever] makes to the client are the batches of
    its datagrams, in order, each for the loader the datagrams before it
    left. *)
Theorem serve_forever_passes_the_batches (datagrams : list bytes)
  (st : app) :
  client_calls (snd (serve_forever datagrams st)) =
    client_calls st ++ batches_of (rules st) (message_loader st) datagrams.
Proof.
  revert st; induction datagrams as [|raw rest IH]; intros st.
  - simpl. now rewrite app_nil_r.
  - rewrite serve_forever_cons, IH.
    pose proof (handle_effect raw st) as H. injection H as -> -> ->.
    cbn [batches_of]. now rewrite app_assoc.
Qed.

(** X20: when the JSON parse of the first payload raises an exception
    that is not a [ValueError], [load_message] raises it and commits
    nothing; [handle] catches it, the loader is still undetermined, and
    the next payload is the one that commits a loader. *)
Theorem detection_is_retried (raw next : bytes) (e : exn) (l : loader)
  (st : app) :
  message_loader st = None ->
  load_message_json raw = Raise e ->
  is_ValueError e = false ->
  detected next = Some l ->
  load_message raw st = (Raise e, st) /\
  handle raw st = (Ok tt, caught e (received raw st)) /\
  message_loader (snd (handle raw st)) = None /\
  message_loader (snd (serve_forever [raw; next] st)) = Some l.
Proof.
  intros Hn Hj He Hd.
  assert (H1 : forall s, message_loader s = None ->
                         load_message raw s = (Raise e, s)).
  { intros s Hs. now rewrite (load_message_first raw s Hs), Hj, He. }
  split; [now apply H1|].
  assert (H2 : handle raw st = (Ok tt, caught e (received raw st))).
  { rewrite handle_eq, handle_body_eq, H1; [reflexivity|].
    now rewrite received_loader. }
  split; [exact H2|].
  assert (H3 : message_loader (snd (handle raw st)) = None).
  { rewrite H2. simpl. now rewrite received_loader. }
  split; [exact H3|].
  rewrite !serve_forever_cons. simpl serve_forever. cbn [snd ret].
  pose proof (handle_effect next (snd (handle raw st))) as H.
  injection H as _ -> _. now rewrite H3.
Qed.

End Traffic.

Lemma detection_is_retried_witness :
  @load_message_json deep_runtime (bytes_of "[[[")
    = Raise (OtherError (u "RecursionError")) /\
  @detected deep_runtime (bytes_of "{}") = Some LoaderJson /\
  message_loader (snd (@handle deep_runtime (bytes_of "[[[") (fresh [] None)))
    = None /\
  message_loader
    (snd (@serve_forever deep_runtime [bytes_of "[[["; bytes_of "{}"]
            (fresh [] None))) = Some LoaderJson.
Proof.
  pose proof (@detection_is_retried deep_runtime (bytes_of "[[[")
                (bytes_of "{}") (OtherError (u "RecursionError")) LoaderJson
                (fresh [] None) eq_refl eq_refl eq_refl eq_refl)
    as (_ & _ & H3 & H4).
  split; [reflexivity|]. split; [reflexivity|]. split; [exact H3|exact H4].
Defined.

(** ** The configuration *)

Section Configuration.
Context {rt : Runtime}.

(** X21: [read_config] raises nothing, whatever the path and the
    configuration; it takes the rules, none when the key is missing, and
    sets the loader for the formats [json] and [legacy] only: any other
    value leaves the detection on.  A loader it sets is used for the first
    payload and for every later one, without detection. *)
Theorem configured_format_is_used_from_the_start (path : pystr)
  (cfg : config) (debug_flag : bool) :
  exists st,
    read_config path cfg (initial debug_flag) = (Ok tt, st) /\
    rules st = match config_rules cfg with Some rs => rs | None => [] end /\
    stderr st = [Line (u "reading config from: " ++ path)] /\
    message_loader st =
      (if is_str (config_message_format cfg) (u "json")
       then Some LoaderJson
       else if is_str (config_message_format cfg) (u "legacy")
       then Some LoaderLegacy else None) /\
    (forall l, message_loader st = Some l ->
       forall (raw : bytes) (datagrams : list bytes),
         load_message raw st = (run_loader l raw, st) /\
         message_loader (snd (serve_forever datagrams st)) = Some l).
Proof.
  assert (Hf : py_format (u "reading config from: {}") [path]
               = Ok (u "reading config from: " ++ path)).
  { change (py_format (u "reading config from: {}") [path])
      with (Ok (u "reading config from: " ++ path ++ [])).
    now rewrite app_nil_r. }
  unfold read_config. rewrite bind_eq. unfold log at 1. rewrite Hf.
  rewrite bind_eq. unfold modify at 1.
  assert (Hl : forall st l, message_loader st = Some l ->
            forall (raw : bytes) (datagrams : list bytes),
              load_message raw st = (run_loader l raw, st) /\
              message_loader (snd (serve_forever datagrams st)) = Some l).
  { intros st l H raw datagrams.
    split; [now apply load_message_committed|].
    destruct (serve_forever_evolves datagrams st) as (_ & _ & _ & Hk & _).
    now apply Hk. }
  destruct (is_str (config_message_format cfg) (u "json"));
    [|destruct (is_str (config_message_format cfg) (u "legacy"))];
    (eexists; split; [reflexivity|]; split; [reflexivity|];
     split; [reflexivity|]; split; [reflexivity|]; apply Hl).
Qed.

End Configuration.

(** ** The default field *)

Section DefaultField.
Context {rt : Runtime}.

(** X22: the default field [value] stands in only for a rule that has no
    ['fields'] at all: a rule whose ['fields'] is an empty map makes no
    point for any message; [make_point] fails at once, on the key
    [@timestamp] when the message lacks it and on its assertion
    otherwise, before any lookup and without a printed line. *)
Theorem empty_fields_map_never_makes_a_point (rl : rule) (msg : value)
  (m : Match) (st : app) :
  fields rl = Some [] ->
  make_point rl msg m st =
  match subscript msg (u "@timestamp") with
  | Ok _ =>
      (Raise (AssertionError (u "Unable to populate field values")), st)
  | Raise e => (Raise e, st)
  end.
Proof.
  intros H. unfold make_point. rewrite bind_eq. unfold lift at 1.
  destruct (subscript msg (u "@timestamp")) as [t|e]; [|reflexivity].
  rewrite bind_eq. unfold get_fields_tags, rule_get. now rewrite H.
Qed.

End DefaultField.

Lemma empty_fields_map_never_makes_a_point_witness :
  fields rule_empty_fields = Some [] /\
  @make_point demo_runtime rule_empty_fields message_A_timestamp no_groups
    (fresh [rule_empty_fields] None)
  = (Raise (AssertionError (u "Unable to populate field values")),
     fresh [rule_empty_fields] None).
Proof.
  split; [reflexivity|].
  exact (@empty_fields_map_never_makes_a_point demo_runtime rule_empty_fields
           message_A_timestamp no_groups (fresh [rule_empty_fields] None)
           eq_refl).
Defined.

(** ** Detection and containment over a run *)

Section Run.
Context {rt : Runtime}.

Lemma handle_when_the_client_raises (raw : bytes) (points : list point)
  (e : exn) (st : app) :
  batch_of (rules st) (message_loader st) raw = Some points ->
  write_points (client_calls st) points = Some e ->
  exists st',
    handle raw st = (Ok tt, caught e st') /\
    client_calls st' = client_calls st ++ [points].
Proof.
  intros Hb Hw. rewrite handle_eq, handle_body_eq.
  destruct (load_message_effect raw (received raw st))
    as (r & st1 & E1 & C1 & Hr).
  rewrite received_rules, received_calls, received_loader in C1.
  rewrite received_loader in Hr. rewrite E1. unfold batch_of in Hb.
  destruct (loader_for (message_loader st) raw) as [x|]; [|discriminate].
  subst r. destruct (run_loader x raw) as [msg|]; [|discriminate].
  destruct (truthy msg); [|discriminate].
  destruct (parse_message_parsed msg st1) as (st2 & E2 & P2).
  apply printed_core in P2. rewrite C1 in P2.
  assert (rules st1 = rules st) as R1 by (now injection C1).
  rewrite E2, R1.
  destruct (parsed (rules st) msg []) as [pts|]; [|discriminate].
  destruct (is_nil pts) eqn:Hn; [discriminate|].
  destruct (forallb line_ok pts) eqn:Hok; [|discriminate].
  injection Hb as ->.
  rewrite send_points_eq, log_points_eq, Hok, Hn.
  unfold client_write_points.
  assert (client_calls (print_all (map (printed_line st2) points) st2)
          = client_calls st) as Hc.
  { rewrite print_all_calls. now injection P2. }
  rewrite Hc, Hw. eexists; split; [reflexivity|].
  unfold with_call. cbn [client_calls]. now rewrite Hc.
Qed.

Lemma serve_forever_keeps_loader (l : loader) (datagrams : list bytes)
  (st : app) :
  message_loader st = Some l ->
  message_loader (snd (serve_forever datagrams st)) = Some l.
Proof.
  intros H.
  destruct (serve_forever_evolves datagrams st) as (_ & _ & _ & Hk & _).
  now apply Hk.
Qed.

(** C1, with the payload whose JSON parse raises another exception than a
    [ValueError] set apart: with no loader configured, the first payload
    commits JSON when [load_message_json] returns, and the message is its
    result; it commits legacy when [load_message_json] raises a
    [ValueError], and the message is what [load_message_legacy] makes of
    the same payload; on any other exception nothing is committed and the
    exception is the failure of that message.  A committed loader is the
    parser of every later payload, [load_message] leaving the state as it
    is; it is the same after any datagrams; and a payload it rejects is a
    failure of that message only: [handle] returns, prints the exception,
    and the loader and the calls are as before. *)
Theorem format_detection_commits_once (first : bytes) (st : app) :
  message_loader st = None ->
  load_message first st =
    match load_message_json first with
    | Ok v => (Ok v, print json_line (with_loader LoaderJson st))
    | Raise e =>
        if is_ValueError e
        then (load_message_legacy first,
              with_loader LoaderLegacy (print legacy_line st))
        else (Raise e, st)
    end /\
  message_loader (snd (handle first st)) =
    match load_message_json first with
    | Ok _ => Some LoaderJson
    | Raise e => if is_ValueError e then Some LoaderLegacy else None
    end /\
  (forall (l : loader) (later : list bytes),
     message_loader (snd (handle first st)) = Some l ->
     message_loader (snd (serve_forever (first :: later) st)) = Some l) /\
  (forall (l : loader) (st2 : app),
     message_loader st2 = Some l ->
     (forall raw : bytes,
        load_message raw st2 =
        (match l with
         | LoaderJson => load_message_json raw
         | LoaderLegacy => load_message_legacy raw
         end, st2)) /\
     (forall datagrams : list bytes,
        message_loader (snd (serve_forever datagrams st2)) = Some l) /\
     (forall (raw : bytes) (e : exn),
        match l with
        | LoaderJson => load_message_json raw
        | LoaderLegacy => load_message_legacy raw
        end = Raise e ->
        handle raw st2 = (Ok tt, caught e (received raw st2)) /\
        message_loader (caught e (received raw st2)) = Some l /\
        client_calls (caught e (received raw st2)) = client_calls st2)).
Proof.
  intros Hnone.
  split; [now apply load_message_first|]. split; [|split].
  - pose proof (handle_effect first st) as H. injection H as _ -> _.
    now rewrite Hnone.
  - intros l later H. rewrite serve_forever_cons.
    now apply serve_forever_keeps_loader.
  - intros l st2 H2.
    assert (Hrun : forall raw,
              run_loader l raw =
              match l with
              | LoaderJson => load_message_json raw
              | LoaderLegacy => load_message_legacy raw
              end) by (now destruct l).
    split; [|split].
    + intros raw. rewrite <- Hrun. now apply load_message_committed.
    + intros datagrams. now apply serve_forever_keeps_loader.
    + intros raw e Hr. rewrite <- Hrun in Hr.
      assert (handle_body raw (received raw st2)
              = (Raise e, received raw st2)) as Hb.
      { rewrite handle_body_eq.
        rewrite (load_message_committed l raw (received raw st2))
          by now rewrite received_loader.
        now rewrite Hr. }
      rewrite handle_eq, Hb. split; [reflexivity|].
      unfold caught, print. cbn [message_loader client_calls].
      now rewrite received_loader, received_calls.
Qed.

(** C2, with the loader a failed message may commit set apart: whatever
    the body of [handle] raises, from the loader to [write_points],
    [handle] returns normally, after printing the traceback and one line;
    so it does when [write_points] raises on the batch of the datagram.
    The state [handle] leaves has the rules it had, the counter one
    higher, and the loader set before or the one the datagram commits.
    The datagram that follows is handled: the batch passed to the client
    for it is the one of the rules, of the loader in force after the first
    datagram, and of that datagram; with a loader set before, this is the
    batch it would have had without the first datagram.  The listener
    handles every datagram in turn, the counter going up by one for
    each. *)
Theorem errors_stay_in_their_message (raw : bytes) (st : app) :
  fst (handle raw st) = Ok tt /\
  (forall (e : exn) (st' : app),
     handle_body raw (received raw st) = (Raise e, st') ->
     handle raw st = (Ok tt, caught e st')) /\
  (forall (st' : app),
     handle_body raw (received raw st) = (Ok tt, st') ->
     handle raw st = (Ok tt, st')) /\
  (forall (points : list point) (e : exn) (st1 st2 : app),
     log_points points st1 = (Ok tt, st2) ->
     is_nil points = false ->
     write_points (client_calls st2) points = Some e ->
     send_points points st1 = (Raise e, with_call points st2)) /\
  (forall (points : list point) (e : exn),
     batch_of (rules st) (message_loader st) raw = Some points ->
     write_points (client_calls st) points = Some e ->
     exists st',
       handle raw st = (Ok tt, caught e st') /\
       client_calls st' = client_calls st ++ [points]) /\
  evolves 1 st (snd (handle raw st)) /\
  message_loader (snd (handle raw st)) = loader_for (message_loader st) raw /\
  (forall next : bytes,
     fst (handle next (snd (handle raw st))) = Ok tt /\
     client_calls (snd (handle next (snd (handle raw st)))) =
       client_calls (snd (handle raw st)) ++
       match batch_of (rules st) (loader_for (message_loader st) raw) next
       with
       | Some points => [points]
       | None => []
       end) /\
  (forall (l : loader) (next : bytes),
     message_loader st = Some l ->
     exists sent,
       client_calls (snd (handle next st)) = client_calls st ++ sent /\
       client_calls (snd (handle next (snd (handle raw st)))) =
         client_calls (snd (handle raw st)) ++ sent) /\
  (forall before after : list bytes,
     serve_forever (before ++ raw :: after) st =
     serve_forever after (snd (handle raw (snd (serve_forever before st))))) /\
  (forall datagrams : list bytes,
     fst (serve_forever datagrams st) = Ok tt /\
     evolves (Z.of_nat (List.length datagrams)) st
       (snd (serve_forever datagrams st))).
Proof.
  pose proof (handle_effect raw st) as H. injection H as R L C.
  split; [apply handle_ok|].
  split; [intros e st' Hb; now rewrite handle_eq, Hb|].
  split; [intros st' Hb; now rewrite handle_eq, Hb|].
  split.
  { intros points e st1 st2 Hl Hn Hw.
    rewrite send_points_eq, Hl, Hn. unfold client_write_points.
    now rewrite Hw. }
  split; [intros points e; apply handle_when_the_client_raises|].
  split; [apply handle_evolves|].
  split; [exact L|].
  split.
  { intros next. split; [apply handle_ok|].
    pose proof (handle_effect next (snd (handle raw st))) as H.
    injection H as _ _ C2. now rewrite C2, R, L. }
  split.
  { intros l next Hl.
    pose proof (handle_effect next st) as H1. injection H1 as _ _ C1.
    pose proof (handle_effect next (snd (handle raw st))) as H2.
    injection H2 as _ _ C2.
    eexists. split; [exact C1|]. rewrite C2, R, L, Hl. reflexivity. }
  split.
  { intros before after.
    now rewrite serve_forever_app, serve_forever_cons. }
  intros datagrams. split; [apply serve_forever_ok|].
  apply serve_forever_evolves.
Qed.

End Run.

(** ** Runs for detection and containment *)

Lemma format_detection_commits_once_witness :
  message_loader (fresh [rule_A] None) = None /\
  @load_message demo_runtime (bytes_of "{}") (fresh [rule_A] None)
  = (Ok (VDict []),
     print json_line (with_loader LoaderJson (fresh [rule_A] None))) /\
  message_loader
    (snd (@handle demo_runtime (bytes_of "{}") (fresh [rule_A] None)))
  = Some LoaderJson /\
  message_loader
    (snd (@serve_forever demo_runtime [bytes_of "{}"; payload_A]
            (fresh [rule_A] None)))
  = Some LoaderJson.
Proof.
  split; [reflexivity|].
  destruct (@format_detection_commits_once demo_runtime (bytes_of "{}")
              (fresh [rule_A] None) eq_refl) as (H1 & H2 & H3 & _).
  split; [exact H1|]. split; [exact H2|].
  exact (H3 LoaderJson [payload_A] H2).
Defined.

(** C1 as it is written, for every first payload: on a document nested
    too deep [json.loads] raises a [RecursionError], which is no
    [ValueError]; the first payload then commits no loader, and the
    detection is made again, on the second payload, whose line it
    prints. *)
Lemma deep_first_payload_commits_nothing :
  @load_message_json nesting_runtime payload_deep
  = Raise (OtherError (u "RecursionError")) /\
  is_ValueError (OtherError (u "RecursionError")) = false /\
  message_loader
    (snd (@handle nesting_runtime payload_deep (fresh [rule_A] None)))
  = None /\
  message_loader
    (snd (@serve_forever nesting_runtime [payload_deep; bytes_of "{}"]
            (fresh [rule_A] None)))
  = Some LoaderJson /\
  stderr
    (snd (@serve_forever nesting_runtime [payload_deep; bytes_of "{}"]
            (fresh [rule_A] None)))
  = [ Traceback (OtherError (u "RecursionError"));
      Line (u "[msg 1]: Caught exception handling message");
      json_line ].
Proof. repeat apply conj; vm_compute; reflexivity. Qed.

Lemma errors_stay_in_their_message_witness :
  @batch_of flaky_runtime [rule_B (u "int")] None payload_B
  = Some [point_B] /\
  @write_points flaky_runtime [] [point_B]
  = Some (OtherError (u "ConnectionError")) /\
  (exists st',
     @handle flaky_runtime payload_B (fresh [rule_B (u "int")] None)
     = (Ok tt, caught (OtherError (u "ConnectionError")) st') /\
     client_calls st' = [[point_B]]) /\
  client_calls
    (snd (@handle flaky_runtime payload_B
            (snd (@handle flaky_runtime payload_B
                    (fresh [rule_B (u "int")] None)))))
  = [[point_B]; [point_B]].
Proof.
  split; [reflexivity|]. split; [reflexivity|].
  destruct (@errors_stay_in_their_message flaky_runtime payload_B
              (fresh [rule_B (u "int")] None))
    as (_ & _ & _ & _ & H3 & _ & _ & H7 & _).
  split.
  - exact (H3 [point_B] (OtherError (u "ConnectionError")) eq_refl eq_refl).
  - destruct (H7 payload_B) as (_ & H). rewrite H. reflexivity.
Defined.

(** C2 as it is written, for a first datagram that fails: alone, the
    datagram of scenario B gives its point; after a datagram that is
    neither JSON nor a legacy message, which fails and commits the legacy
    loader, the same datagram fails too and gives nothing. *)
Lemma failed_first_datagram_changes_the_next :
  client_calls
    (snd (@serve_forever demo_runtime [payload_B]
            (fresh [rule_B (u "int")] None)))
  = [[point_B]] /\
  @load_message_json demo_runtime payload_garbage = Raise ValueError /\
  load_message_legacy payload_garbage = Raise ValueError /\
  message_loader
    (snd (@handle demo_runtime payload_garbage
            (fresh [rule_B (u "int")] None)))
  = Some LoaderLegacy /\
  load_message_legacy payload_B = Raise ValueError /\
  client_calls
    (snd (@serve_forever demo_runtime [payload_garbage; payload_B]
            (fresh [rule_B (u "int")] None)))
  = [] /\
  stderr
    (snd (@serve_forever demo_runtime [payload_garbage; payload_B]
            (fresh [rule_B (u "int")] None)))
  = [ legacy_line;
      Traceback ValueError;
      Line (u "[msg 1]: Caught exception handling message");
      Traceback ValueError;
      Line (u "[msg 2]: Caught exception handling message") ].
Proof. repeat split; vm_compute; reflexivity. Qed.

(** C6 as it is written, for every message: a message that is a JSON
    array has no field at all, and [check_re] raises a [TypeError] on it,
    without a line; a message whose target field is a number makes
    [check_re] raise an [AttributeError], and the point another rule
    would have given for the message is lost with it. *)
Lemma target_field_lookup_can_raise :
  @check_re demo_runtime (VList [VStr (u "level")]) (u "level") (u "error")
    (fresh [rule_A] None)
  = (Raise TypeError, fresh [rule_A] None) /\
  @parse_message demo_runtime (VList [VStr (u "level")])
    (fresh [rule_A] None)
  = (Raise TypeError, fresh [rule_A] None) /\
  @load_message_json number_runtime payload_number = Ok message_number /\
  @check_re number_runtime message_number (u "level") (u "error")
    (fresh [rule_A] None)
  = (Raise AttributeError, fresh [rule_A] None) /\
  client_calls
    (snd (@handle number_runtime payload_number (fresh [rule_host] None)))
  = [[point_host]] /\
  client_calls
    (snd (@handle number_runtime payload_number
            (fresh [rule_host; rule_A] None)))
  = [].
Proof. repeat split; vm_compute; reflexivity. Qed.
